(** * Verification of the UVM assembler and interpreter (variant 15)

    Shallow embedding of [src/assembler.py] (instruction classes and their
    [to_bytes], class [Assembler] with [parse_line], [assemble] and
    [to_binary]) and of [src/interpreter.py] (class [VirtualMachine], with the
    cells [dump_memory_xml] writes out).

    Python integers are [Z]; a Python [bytes] object is a [list Z] whose
    elements are bytes in [0, 256); Python lists are stdpp lists indexed with
    Python's index rules written out ([py_get], [py_set]).  An exception
    raised by a method leaves the object in the state it had at the [raise]
    point, so the interpreter runs in a state monad whose failure outcome
    still carries the state. *)

From Stdlib Require Import ZArith Lia String Ascii.
From stdpp Require Import base list.

Open Scope Z_scope.

(* ------------------------------------------------------------------ *)
(** ** Python exceptions *)

(** Payload of the two [ValueError] messages of the program:
    the range check of an instruction constructor
    ("<field> <value> вне диапазона [lo, hi]") and the unknown-opcode error of
    [VirtualMachine.step] ("Неизвестный код операции: <opcode> на позиции <pc>").
    The Russian field labels are rendered by ASCII names. *)
Inductive value_error :=
| RangeMsg (field : string) (value lo hi : Z)
| UnknownOpcodeMsg (opcode pos : Z).

Inductive exn :=
| ValueError (msg : value_error)
| IndexError
| OverflowError.

(* ------------------------------------------------------------------ *)
(** ** Python builtins used by the program *)

(** [int.to_bytes(n, byteorder='little')] for a non-negative [int]:
    raises [OverflowError] unless [0 <= v < 2^(8n)]. *)
Definition int_to_bytes (v : Z) (n : nat) : exn + list Z :=
  if (0 <=? v) && (v <? 2 ^ (8 * Z.of_nat n))
  then inr ((fun i => Z.land (Z.shiftr v (8 * Z.of_nat i)) 255) <$> seq 0 n)
  else inl OverflowError.

(** [int.from_bytes(bs, byteorder='little')] *)
Fixpoint int_from_bytes (bs : list Z) : Z :=
  match bs with
  | [] => 0
  | b :: rest => b + int_from_bytes rest * 256
  end.

(** Python slice index normalisation: negative indices count from the end,
    then the index is clamped to [0, len]. *)
Definition py_slice_index (len i : Z) : Z :=
  if i <? 0 then Z.max 0 (i + len) else Z.min i len.

(** [s[a:b]] *)
Definition py_slice (l : list Z) (a b : Z) : list Z :=
  let len := Z.of_nat (length l) in
  let a' := py_slice_index len a in
  let b' := py_slice_index len b in
  take (Z.to_nat (b' - a')) (drop (Z.to_nat a') l).

(** Python list index normalisation for [l[i]] and [l[i] = v]. *)
Definition py_index (l : list Z) (i : Z) : exn + nat :=
  let len := Z.of_nat (length l) in
  let i' := if i <? 0 then i + len else i in
  if (0 <=? i') && (i' <? len) then inr (Z.to_nat i') else inl IndexError.

(** [l[i]] *)
Definition py_get (l : list Z) (i : Z) : exn + Z :=
  match py_index l i with
  | inl e => inl e
  | inr k => inr (default 0 (l !! k))
  end.

(** [l[i] = v] *)
Definition py_set (l : list Z) (i v : Z) : exn + list Z :=
  match py_index l i with
  | inl e => inl e
  | inr k => inr (<[k := v]> l)
  end.

(* ------------------------------------------------------------------ *)
(** ** assembler.py: the instruction classes *)

Inductive Instruction :=
| LoadConst (constant address : Z)
| ReadMem (offset src_addr dst_addr : Z)
| WriteMem (src_addr dst_addr : Z)
| GTE (offset1 addr1 addr2 res_addr offset2 : Z).

(** [self.opcode], set by [super().__init__] *)
Definition opcode (i : Instruction) : Z :=
  match i with
  | LoadConst _ _ => 111
  | ReadMem _ _ _ => 40
  | WriteMem _ _ => 101
  | GTE _ _ _ _ _ => 68
  end.

(** One [if not (0 <= x < bound): raise ValueError(...)] line. *)
Definition check_range (field : string) (x bound : Z) : exn + unit :=
  if (0 <=? x) && (x <? bound) then inr tt
  else inl (ValueError (RangeMsg field x 0 (bound - 1))).

Definition seq_check (c : exn + unit) (k : exn + Instruction) : exn + Instruction :=
  match c with
  | inl e => inl e
  | inr _ => k
  end.

Infix ";;;" := seq_check (at level 100, right associativity).

(** [LoadConstInstruction.__init__] *)
Definition LoadConstInstruction (constant address : Z) : exn + Instruction :=
  check_range "constant" constant 2048 ;;;
  check_range "address" address 67108864 ;;;
  inr (LoadConst constant address).

(** [ReadMemInstruction.__init__] *)
Definition ReadMemInstruction (offset src_addr dst_addr : Z) : exn + Instruction :=
  check_range "offset" offset 256 ;;;
  check_range "address" src_addr 67108864 ;;;
  check_range "address" dst_addr 67108864 ;;;
  inr (ReadMem offset src_addr dst_addr).

(** [WriteMemInstruction.__init__] *)
Definition WriteMemInstruction (src_addr dst_addr : Z) : exn + Instruction :=
  check_range "address" src_addr 67108864 ;;;
  check_range "address" dst_addr 67108864 ;;;
  inr (WriteMem src_addr dst_addr).

(** [GTEInstruction.__init__]; note the order of the checks:
    offset1, offset2, addr1, addr2, res_addr. *)
Definition GTEInstruction (offset1 addr1 addr2 res_addr offset2 : Z)
  : exn + Instruction :=
  check_range "offset1" offset1 256 ;;;
  check_range "offset2" offset2 256 ;;;
  check_range "address1" addr1 67108864 ;;;
  check_range "address2" addr2 67108864 ;;;
  check_range "result address" res_addr 67108864 ;;;
  inr (GTE offset1 addr1 addr2 res_addr offset2).

(** The packed integer built by each [to_bytes] *)
Definition packed_value (i : Instruction) : Z :=
  match i with
  | LoadConst constant address =>
      Z.lor (Z.lor (opcode i) (Z.shiftl constant 7)) (Z.shiftl address 18)
  | ReadMem offset src_addr dst_addr =>
      Z.lor (Z.lor (Z.lor (opcode i) (Z.shiftl offset 7)) (Z.shiftl src_addr 15))
            (Z.shiftl dst_addr 41)
  | WriteMem src_addr dst_addr =>
      Z.lor (Z.lor (opcode i) (Z.shiftl src_addr 7)) (Z.shiftl dst_addr 33)
  | GTE offset1 addr1 addr2 res_addr offset2 =>
      Z.lor (Z.lor (Z.lor (Z.lor (Z.lor (opcode i) (Z.shiftl offset1 7))
                                 (Z.shiftl addr1 15))
                          (Z.shiftl addr2 41))
                   (Z.shiftl res_addr 67))
            (Z.shiftl offset2 93)
  end.

(** The byte count passed to [value.to_bytes] *)
Definition byte_count (i : Instruction) : nat :=
  match i with
  | LoadConst _ _ => 6
  | ReadMem _ _ _ => 9
  | WriteMem _ _ => 8
  | GTE _ _ _ _ _ => 13
  end.

(** [Instruction.to_bytes] of each subclass *)
Definition to_bytes (i : Instruction) : exn + list Z :=
  int_to_bytes (packed_value i) (byte_count i).

(** [Assembler.to_binary]: concatenation of the encodings in order *)
Fixpoint to_binary (instrs : list Instruction) : exn + list Z :=
  match instrs with
  | [] => inr []
  | i :: rest =>
      match to_bytes i with
      | inl e => inl e
      | inr bs =>
          match to_binary rest with
          | inl e => inl e
          | inr bs' => inr (bs ++ bs')
          end
      end
  end.

(* ------------------------------------------------------------------ *)
(** ** interpreter.py: class [VirtualMachine] *)

Record VM := mkVM {
  data_memory : list Z;
  code_memory : list Z;
  pc : Z
}.

(** [VirtualMachine.__init__(memory_size)] *)
Definition VirtualMachine (memory_size : Z) : VM :=
  mkVM (repeat 0 (Z.to_nat memory_size)) [] 0.

(** default argument of [__init__] *)
Definition default_memory_size : Z := 100000.

(** [VirtualMachine.load_program] *)
Definition load_program (vm : VM) (binary_code : list Z) : VM :=
  mkVM (data_memory vm) binary_code 0.

(** [VirtualMachine.read_bits]; [//] and [%] are floor division and modulo,
    as [Z.div] and [Z.modulo]. *)
Definition read_bits (vm : VM) (start_bit length : Z) : Z :=
  let start_byte := start_bit / 8 in
  let end_byte := (start_bit + length - 1) / 8 + 1 in
  let bytes_to_read :=
    py_slice (code_memory vm) (pc vm + start_byte) (pc vm + end_byte) in
  let value := int_from_bytes bytes_to_read in
  let bit_offset := start_bit mod 8 in
  let mask := Z.shiftl 1 length - 1 in
  Z.land (Z.shiftr value bit_offset) mask.

(** *** The method monad: state of the object, exceptions keep the state *)

Definition M (A : Type) : Type := VM -> (exn + A) * VM.

Definition ret {A} (x : A) : M A := fun s => (inr x, s).

Definition bind {A B} (m : M A) (k : A -> M B) : M B :=
  fun s =>
    match m s with
    | (inl e, s') => (inl e, s')
    | (inr x, s') => k x s'
    end.

Notation "x <- m ;; k" := (bind m (fun x => k))
  (at level 100, m at next level, right associativity).

Definition raise {A} (e : exn) : M A := fun s => (inl e, s).

Definition get_state : M VM := fun s => (inr s, s).

(** [self.read_bits(start, length)] *)
Definition read_bits_m (start_bit length : Z) : M Z :=
  fun s => (inr (read_bits s start_bit length), s).

(** [self.data_memory[i]] *)
Definition mem_get (i : Z) : M Z :=
  fun s =>
    match py_get (data_memory s) i with
    | inl e => (inl e, s)
    | inr v => (inr v, s)
    end.

(** [self.data_memory[i] = v] *)
Definition mem_set (i v : Z) : M unit :=
  fun s =>
    match py_set (data_memory s) i v with
    | inl e => (inl e, s)
    | inr m => (inr tt, mkVM m (code_memory s) (pc s))
    end.

(** [self.pc += n] *)
Definition pc_add (n : Z) : M unit :=
  fun s => (inr tt, mkVM (data_memory s) (code_memory s) (pc s + n)).

(** The values interpolated in the trace string each [execute_*] returns. *)
Inductive trace :=
| TLoadConst (address constant : Z)
| TReadMem (dst_addr src_addr offset effective_addr value : Z)
| TWriteMem (dst_addr src_addr value : Z)
| TGte (effective_res_addr operand1 operand2 result : Z).

(** [VirtualMachine.execute_load_const] *)
Definition execute_load_const : M trace :=
  _opcode <- read_bits_m 0 7 ;;
  constant <- read_bits_m 7 11 ;;
  address <- read_bits_m 18 26 ;;
  _ <- mem_set address constant ;;
  _ <- pc_add 6 ;;
  ret (TLoadConst address constant).

(** [VirtualMachine.execute_read_mem] *)
Definition execute_read_mem : M trace :=
  _opcode <- read_bits_m 0 7 ;;
  offset <- read_bits_m 7 8 ;;
  src_addr <- read_bits_m 15 26 ;;
  dst_addr <- read_bits_m 41 26 ;;
  base <- mem_get src_addr ;;
  let effective_addr := base + offset in
  value <- mem_get effective_addr ;;
  _ <- mem_set dst_addr value ;;
  _ <- pc_add 9 ;;
  ret (TReadMem dst_addr src_addr offset effective_addr value).

(** [VirtualMachine.execute_write_mem] *)
Definition execute_write_mem : M trace :=
  _opcode <- read_bits_m 0 7 ;;
  src_addr <- read_bits_m 7 26 ;;
  dst_addr <- read_bits_m 33 26 ;;
  value <- mem_get src_addr ;;
  _ <- mem_set dst_addr value ;;
  _ <- pc_add 8 ;;
  ret (TWriteMem dst_addr src_addr value).

(** [VirtualMachine.execute_gte] *)
Definition execute_gte : M trace :=
  _opcode <- read_bits_m 0 7 ;;
  offset1 <- read_bits_m 7 8 ;;
  addr1 <- read_bits_m 15 26 ;;
  addr2 <- read_bits_m 41 26 ;;
  res_addr <- read_bits_m 67 26 ;;
  offset2 <- read_bits_m 93 8 ;;
  base1 <- mem_get addr1 ;;
  let effective_addr1 := base1 + offset1 in
  base_res <- mem_get res_addr ;;
  let effective_res_addr := base_res + offset2 in
  operand1 <- mem_get effective_addr1 ;;
  operand2 <- mem_get addr2 ;;
  let result := if operand2 <=? operand1 then 1 else 0 in
  _ <- mem_set effective_res_addr result ;;
  _ <- pc_add 13 ;;
  ret (TGte effective_res_addr operand1 operand2 result).

(** [VirtualMachine.step]; [None] is the Python [None] returned at the end
    of the program. *)
Definition step : M (option trace) :=
  s <- get_state ;;
  if Z.of_nat (length (code_memory s)) <=? pc s then ret None else
  opc <- read_bits_m 0 7 ;;
  if opc =? 111 then (t <- execute_load_const ;; ret (Some t))
  else if opc =? 40 then (t <- execute_read_mem ;; ret (Some t))
  else if opc =? 101 then (t <- execute_write_mem ;; ret (Some t))
  else if opc =? 68 then (t <- execute_gte ;; ret (Some t))
  else raise (ValueError (UnknownOpcodeMsg opc (pc s))).

(** The [while] loop of [VirtualMachine.run] (the verbose printing is a side
    channel and is left out).  Every executed instruction advances [pc] by at
    least 6 bytes, so [length code_memory - pc + 1] iterations are enough: the
    fuel never runs out before the loop condition fails (see [run_loop_fuel]
    and [run_loop_halts]). *)
Fixpoint run_loop (fuel : nat) : M unit :=
  match fuel with
  | O => ret tt
  | S fuel' =>
      s <- get_state ;;
      if pc s <? Z.of_nat (length (code_memory s)) then
        (result <- step ;;
         match result with
         | None => ret tt
         | Some _ => run_loop fuel'
         end)
      else ret tt
  end.

(** [VirtualMachine.run] *)
Definition run : M unit :=
  s <- get_state ;;
  run_loop (S (Z.to_nat (Z.of_nat (length (code_memory s)) - pc s))).

(* ------------------------------------------------------------------ *)
(** ** Reading aids for the statements *)

(** An element of a Python [bytes] object *)
Definition byte_ok (b : Z) : Prop := 0 <= b < 256.

(** Bit number [k] of a byte buffer read as a little-endian integer:
    bit [k mod 8] of byte [k / 8]; bits past the end are 0. *)
Definition buf_bit (l : list Z) (k : Z) : bool :=
  Z.testbit (default 0 (l !! Z.to_nat (k / 8))) (k mod 8).

(** Field layout table of spec section 4.2: (bit offset, width) of each field,
    opcode first. *)
Definition field_layout (i : Instruction) : list (Z * Z) :=
  match i with
  | LoadConst _ _ => [(0, 7); (7, 11); (18, 26)]
  | ReadMem _ _ _ => [(0, 7); (7, 8); (15, 26); (41, 26)]
  | WriteMem _ _ => [(0, 7); (7, 26); (33, 26)]
  | GTE _ _ _ _ _ => [(0, 7); (7, 8); (15, 26); (41, 26); (67, 26); (93, 8)]
  end.

(** The opcode followed by the operands, in layout order *)
Definition field_values (i : Instruction) : list Z :=
  match i with
  | LoadConst c a => [opcode i; c; a]
  | ReadMem o s d => [opcode i; o; s; d]
  | WriteMem s d => [opcode i; s; d]
  | GTE o1 a1 a2 r o2 => [opcode i; o1; a1; a2; r; o2]
  end.

(** Every operand fits its declared unsigned bit width. *)
Definition operands_fit (i : Instruction) : Prop :=
  match i with
  | LoadConst c a => 0 <= c < 2 ^ 11 /\ 0 <= a < 2 ^ 26
  | ReadMem o s d => 0 <= o < 2 ^ 8 /\ 0 <= s < 2 ^ 26 /\ 0 <= d < 2 ^ 26
  | WriteMem s d => 0 <= s < 2 ^ 26 /\ 0 <= d < 2 ^ 26
  | GTE o1 a1 a2 r o2 =>
      0 <= o1 < 2 ^ 8 /\ 0 <= a1 < 2 ^ 26 /\ 0 <= a2 < 2 ^ 26 /\
      0 <= r < 2 ^ 26 /\ 0 <= o2 < 2 ^ 8
  end.

(** The fields read back by [read_bits] at the layout of [i], with [pc] at
    the first byte of the instruction. *)
Definition read_fields (vm : VM) (i : Instruction) : list Z :=
  map (fun '(off, w) => read_bits vm off w) (field_layout i).

(** The cell at a non-negative address (reading aid) *)
Definition mem_at (m : list Z) (a : Z) : Z := default 0 (m !! Z.to_nat a).

(** Runs of successful steps *)
Inductive steps : VM -> VM -> Prop :=
| steps_refl s : steps s s
| steps_step s t s' s'' :
    step s = (inr (Some t), s') -> steps s' s'' -> steps s s''.

(** States the engine can reach: a fresh machine, [load_program], and
    successful steps. *)
Inductive reachable : VM -> Prop :=
| reach_init memory_size : reachable (VirtualMachine memory_size)
| reach_load s code : reachable s -> reachable (load_program s code)
| reach_step s t s' : reachable s -> step s = (inr (Some t), s') -> reachable s'.

Definition code_len (s : VM) : Z := Z.of_nat (length (code_memory s)).

(** A data-memory cell as the engine fills it *)
Definition cell_ok (x : Z) : Prop := 0 <= x <= 2047.

(** [main] of interpreter.py: a fresh [VirtualMachine()], [load_program],
    then [run]. *)
Definition run_binary (memory_size : Z) (binary_code : list Z) : (exn + unit) * VM :=
  run (load_program (VirtualMachine memory_size) binary_code).

(** The program [LOAD_CONST 10 0; LOAD_CONST 5 1; GTE 0 0 1 2 0], built with
    the instruction constructors and assembled with [to_binary]. *)
Definition scenario_B_binary : exn + list Z :=
  match LoadConstInstruction 10 0, LoadConstInstruction 5 1,
        GTEInstruction 0 0 1 2 0 with
  | inr i1, inr i2, inr i3 => to_binary [i1; i2; i3]
  | inl e, _, _ | _, inl e, _ | _, _, inl e => inl e
  end.

(** Its run on the default machine of [main] *)
Definition scenario_B_result : option ((exn + unit) * VM) :=
  match scenario_B_binary with
  | inr code => Some (run_binary default_memory_size code)
  | inl _ => None
  end.

(** [pc] and cells 0, 1, 2 at the end of that run when it returns normally;
    [None] when assembling or running raises. *)
Definition scenario_B_final : option (Z * Z * Z * Z) :=
  match scenario_B_result with
  | Some (inr tt, vm') =>
      Some (pc vm', mem_at (data_memory vm') 0, mem_at (data_memory vm') 1,
            mem_at (data_memory vm') 2)
  | _ => None
  end.

(** Concrete machines for the examples below.  [gte_example_code] is the
    13-byte encoding of [GTE 1 0 5 5 2], [load_example_code] the 6-byte
    encoding of [LOAD_CONST 7 2]. *)
Definition gte_example_code : list Z := [196; 0; 0; 0; 0; 10; 0; 0; 40; 0; 0; 64; 0].

Definition gte_example_vm : VM := mkVM [3; 7; 2; 9; 4; 1] gte_example_code 0.

Definition load_example_code : list Z := [239; 3; 8; 0; 0; 0].

Definition load_example_vm : VM := load_program (VirtualMachine 4) load_example_code.

(** The machine after that instruction: cell 2 holds 7, [pc] is 6. *)
Definition load_example_after : VM := mkVM [0; 0; 7; 0] load_example_code 6.

(** [LOAD_CONST 7 2] followed by a byte whose opcode field is 0 *)
Definition unknown_example_code : list Z := load_example_code ++ [0].

Definition unknown_example_vm : VM := load_program (VirtualMachine 4) unknown_example_code.

(* ------------------------------------------------------------------ *)
(** ** assembler.py: class [Assembler] *)

(** A Python [str] of the assembler source is a [string] of ASCII
    characters; the character classes and the case mapping below are
    Python's on ASCII. *)

(** [str.isspace] on one character: \t \n \v \f \r, \x1c-\x1f and space *)
Definition is_space (c : ascii) : bool :=
  let n := nat_of_ascii c in
  (Nat.leb 9 n && Nat.leb n 13) || (Nat.leb 28 n && Nat.leb n 32).

(** [str.upper] on one ASCII character *)
Definition upper_char (c : ascii) : ascii :=
  let n := nat_of_ascii c in
  if Nat.leb 97 n && Nat.leb n 122 then ascii_of_nat (n - 32) else c.

(** [str.upper] *)
Fixpoint py_upper (s : string) : string :=
  match s with
  | EmptyString => EmptyString
  | String c r => String (upper_char c) (py_upper r)
  end.

(** [s.index(c)] for a one-character [c], [None] when [c not in s] *)
Fixpoint str_index (c : ascii) (s : string) : option nat :=
  match s with
  | EmptyString => None
  | String d r => if Ascii.eqb d c then Some 0%nat else option_map S (str_index c r)
  end.

(** [str.lstrip()] *)
Fixpoint lstrip (s : string) : string :=
  match s with
  | EmptyString => EmptyString
  | String c r => if is_space c then lstrip r else s
  end.

(** [str.rstrip()] *)
Fixpoint rstrip (s : string) : string :=
  match s with
  | EmptyString => EmptyString
  | String c r =>
      let r' := rstrip r in
      if is_space c && String.eqb r' "" then EmptyString else String c r'
  end.

(** [str.strip()] *)
Definition py_strip (s : string) : string := rstrip (lstrip s).

(** [str.split()]: the maximal runs of non-whitespace characters *)
Fixpoint split_ws_go (s word : string) : list string :=
  match s with
  | EmptyString => if String.eqb word "" then [] else [word]
  | String c r =>
      if is_space c then
        (if String.eqb word "" then split_ws_go r "" else word :: split_ws_go r "")
      else split_ws_go r (word ++ String c "")%string
  end.

Definition py_split (s : string) : list string := split_ws_go s "".

(** [str.split(sep)] for a one-character [sep]: empty pieces are kept *)
Fixpoint split_on_go (sep : ascii) (s cur : string) : list string :=
  match s with
  | EmptyString => [cur]
  | String c r =>
      if Ascii.eqb c sep then cur :: split_on_go sep r ""
      else split_on_go sep r (cur ++ String c "")%string
  end.

Definition py_split_on (sep : ascii) (s : string) : list string := split_on_go sep s "".

(** [int(s)] on a [str], base 10: surrounding whitespace, an optional sign,
    then decimal digits with single underscores between digits.  CPython
    refuses more than 4300 digits ([sys.int_info.default_max_str_digits]);
    [None] is the [ValueError]. *)
Definition is_digit (c : ascii) : bool :=
  let n := nat_of_ascii c in Nat.leb 48 n && Nat.leb n 57.

Definition digit_value (c : ascii) : Z := Z.of_nat (nat_of_ascii c - 48).

Fixpoint int_digits_go (s : string) (acc : Z) (n : nat) : option (Z * nat) :=
  match s with
  | EmptyString => Some (acc, n)
  | String c r =>
      if is_digit c then int_digits_go r (10 * acc + digit_value c) (S n)
      else if Ascii.eqb c "_" then
        match r with
        | String d r' =>
            if is_digit d then int_digits_go r' (10 * acc + digit_value d) (S n)
            else None
        | EmptyString => None
        end
      else None
  end.

(** The value and the number of digits of a digit string *)
Definition int_digits (s : string) : option (Z * nat) :=
  match s with
  | String d r => if is_digit d then int_digits_go r (digit_value d) 1 else None
  | EmptyString => None
  end.

Definition max_str_digits : nat := 4300.

Definition py_int (s : string) : option Z :=
  let t := py_strip s in
  let '(neg, body) :=
    match t with
    | String c r =>
        if Ascii.eqb c "-" then (true, r)
        else if Ascii.eqb c "+" then (false, r) else (false, t)
    | EmptyString => (false, t)
    end in
  match int_digits body with
  | Some (v, n) => if Nat.ltb max_str_digits n then None else Some (if neg then - v else v)
  | None => None
  end.

(** Payload of the [ValueError]s raised inside the [try] of
    [Assembler.parse_line]: a constructor's range error, the argument count
    ("<MNEMONIC> требует <n> аргумента, получено <k>"), a token [int] refuses,
    and the unknown mnemonic ("Неизвестная мнемоника: <m>"). *)
Inductive line_msg :=
| CtorMsg (msg : value_error)
| ArgCountMsg (mnemonic : string) (expected got : nat)
| IntLiteralMsg (token : string)
| UnknownMnemonicMsg (mnemonic : string).

(** What the [try] block raises: a [ValueError], or anything else *)
Inductive try_exn :=
| TryValueError (msg : line_msg)
| TryOther (e : exn).

(** What [parse_line] and [assemble] raise: the re-raised
    [ValueError("Ошибка в строке '<line>': <e>")], or an exception the
    [except ValueError] clause does not catch. *)
Inductive asm_exn :=
| LineError (line : string) (msg : line_msg)
| AsmOther (e : exn).

Definition try_bind {A B} (r : try_exn + A) (k : A -> try_exn + B) : try_exn + B :=
  match r with
  | inl e => inl e
  | inr x => k x
  end.

(** [int(tok)] inside the [try] *)
Definition int_call (tok : string) : try_exn + Z :=
  match py_int tok with
  | Some v => inr v
  | None => inl (TryValueError (IntLiteralMsg tok))
  end.

(** An instruction constructor called inside the [try] *)
Definition ctor_call (r : exn + Instruction) : try_exn + Instruction :=
  match r with
  | inl (ValueError msg) => inl (TryValueError (CtorMsg msg))
  | inl e => inl (TryOther e)
  | inr i => inr i
  end.

Definition arg_count_error (mnemonic : string) (expected : nat) (args : list string)
  : try_exn + Instruction :=
  inl (TryValueError (ArgCountMsg mnemonic expected (length args))).

(** The [try] block of [Assembler.parse_line], from [mnemonic] on *)
Definition parse_body (mnemonic : string) (args : list string) : try_exn + Instruction :=
  if String.eqb mnemonic "LOAD_CONST" then
    if negb (Nat.eqb (length args) 2) then arg_count_error "LOAD_CONST" 2 args else
    try_bind (int_call (nth 0 args EmptyString)) (fun constant =>
    try_bind (int_call (nth 1 args EmptyString)) (fun address =>
    ctor_call (LoadConstInstruction constant address)))
  else if String.eqb mnemonic "READ_MEM" then
    if negb (Nat.eqb (length args) 3) then arg_count_error "READ_MEM" 3 args else
    try_bind (int_call (nth 0 args EmptyString)) (fun offset =>
    try_bind (int_call (nth 1 args EmptyString)) (fun src_addr =>
    try_bind (int_call (nth 2 args EmptyString)) (fun dst_addr =>
    ctor_call (ReadMemInstruction offset src_addr dst_addr))))
  else if String.eqb mnemonic "WRITE_MEM" then
    if negb (Nat.eqb (length args) 2) then arg_count_error "WRITE_MEM" 2 args else
    try_bind (int_call (nth 0 args EmptyString)) (fun src_addr =>
    try_bind (int_call (nth 1 args EmptyString)) (fun dst_addr =>
    ctor_call (WriteMemInstruction src_addr dst_addr)))
  else if String.eqb mnemonic "GTE" then
    if negb (Nat.eqb (length args) 5) then arg_count_error "GTE" 5 args else
    try_bind (int_call (nth 0 args EmptyString)) (fun offset1 =>
    try_bind (int_call (nth 1 args EmptyString)) (fun addr1 =>
    try_bind (int_call (nth 2 args EmptyString)) (fun addr2 =>
    try_bind (int_call (nth 3 args EmptyString)) (fun res_addr =>
    try_bind (int_call (nth 4 args EmptyString)) (fun offset2 =>
    ctor_call (GTEInstruction offset1 addr1 addr2 res_addr offset2))))))
  else inl (TryValueError (UnknownMnemonicMsg mnemonic)).

(** [if '#' in line: line = line[:line.index('#')]] *)
Definition strip_comment (line : string) : string :=
  match str_index "#" line with
  | Some i => substring 0 i line
  | None => line
  end.

(** [Assembler.parse_line]; [inr None] is the Python [None] *)
Definition parse_line (line0 : string) : asm_exn + option Instruction :=
  let line := py_strip (strip_comment line0) in
  if String.eqb line "" then inr None else
  match py_split line with
  | [] => inr None
  | tok :: args =>
      match parse_body (py_upper tok) args with
      | inr i => inr (Some i)
      | inl (TryValueError msg) => inl (LineError line msg)
      | inl (TryOther e) => inl (AsmOther e)
      end
  end.

(** The [for] loop of [Assembler.assemble] over the remaining lines, with
    [self.instructions] as state.  The message printed to [stderr] before
    re-raising is a side channel and is left out. *)
Fixpoint assemble_go (lines : list string) (instructions : list Instruction)
  : (asm_exn + list Instruction) * list Instruction :=
  match lines with
  | [] => (inr instructions, instructions)
  | line :: rest =>
      match parse_line line with
      | inl e => (inl e, instructions)
      | inr None => assemble_go rest instructions
      | inr (Some instr) => assemble_go rest (instructions ++ [instr])
      end
  end.

(** [Assembler.assemble(source)]: the result (returned list or raised
    exception) and [self.instructions] afterwards *)
Definition assemble (source : string) : (asm_exn + list Instruction) * list Instruction :=
  assemble_go (py_split_on "010" source) [].

(* ------------------------------------------------------------------ *)
(** ** interpreter.py: [VirtualMachine.dump_memory_xml] *)

(** [range(a, b)]: [n] consecutive integers from [a] *)
Fixpoint py_range_go (a : Z) (n : nat) : list Z :=
  match n with
  | O => []
  | S n' => a :: py_range_go (a + 1) n'
  end.

Definition py_range (a b : Z) : list Z := py_range_go a (Z.to_nat (b - a)).

(** The [<cell>] elements of the dump, in document order, as
    (address, value) pairs: one per [addr] of the range with
    [addr < len(self.data_memory)], its value read with [self.data_memory[addr]]
    (which raises [IndexError] below [-len]).  The XML text and the file
    written from these elements are not modelled. *)
Fixpoint dump_cells (mem : list Z) (addrs : list Z) : exn + list (Z * Z) :=
  match addrs with
  | [] => inr []
  | addr :: rest =>
      if addr <? Z.of_nat (length mem) then
        match py_get mem addr with
        | inl e => inl e
        | inr v =>
            match dump_cells mem rest with
            | inl e => inl e
            | inr cells => inr ((addr, v) :: cells)
            end
        end
      else dump_cells mem rest
  end.

Definition dump_memory_cells (vm : VM) (start_addr end_addr : Z) : exn + list (Z * Z) :=
  dump_cells (data_memory vm) (py_range start_addr (end_addr + 1)).

(* ------------------------------------------------------------------ *)
(** ** Reading aids for assembled programs and source text *)

(** Byte offset of the [k]-th instruction in [to_binary instrs] *)
Definition instr_offset (instrs : list Instruction) (k : nat) : Z :=
  Z.of_nat (sum_list (byte_count <$> take k instrs)).

(** The mnemonic the assembler accepts for each variant *)
Definition mnemonic_of (i : Instruction) : string :=
  match i with
  | LoadConst _ _ => "LOAD_CONST"
  | ReadMem _ _ _ => "READ_MEM"
  | WriteMem _ _ => "WRITE_MEM"
  | GTE _ _ _ _ _ => "GTE"
  end.

(** The operands in the order of the source line *)
Definition operands (i : Instruction) : list Z :=
  match i with
  | LoadConst c a => [c; a]
  | ReadMem o s d => [o; s; d]
  | WriteMem s d => [s; d]
  | GTE o1 a1 a2 r o2 => [o1; a1; a2; r; o2]
  end.

(** The constructor call [parse_line] makes for the variant of [i] with the
    operands of [i] *)
Definition construct (i : Instruction) : exn + Instruction :=
  match i with
  | LoadConst c a => LoadConstInstruction c a
  | ReadMem o s d => ReadMemInstruction o s d
  | WriteMem s d => WriteMemInstruction s d
  | GTE o1 a1 a2 r o2 => GTEInstruction o1 a1 a2 r o2
  end.

(** Decimal digits of [m >= 0], most significant first ([fuel] bounds the
    number of divisions) *)
Fixpoint dec_digits (fuel : nat) (m : Z) : list Z :=
  match fuel with
  | O => [m]
  | S f => if m <? 10 then [m] else dec_digits f (m / 10) ++ [m mod 10]
  end.

Definition digit_char (d : Z) : ascii := ascii_of_nat (48 + Z.to_nat d).

Definition string_of_digits (ds : list Z) : string :=
  fold_right (fun d s => String (digit_char d) s) EmptyString ds.

(** [str(n)] for an [int] *)
Definition decimal (n : Z) : string :=
  let m := Z.abs n in
  let s := string_of_digits (dec_digits (Z.to_nat (Z.log2 m)) m) in
  if n <? 0 then String "-" s else s.

(** Every character satisfies [p] *)
Fixpoint str_all (p : ascii -> bool) (s : string) : bool :=
  match s with
  | EmptyString => true
  | String c r => p c && str_all p r
  end.

(** A character of a token: neither whitespace nor ['#'] *)
Definition tok_char (c : ascii) : bool := negb (is_space c) && negb (Ascii.eqb c "#").

(** A token as [str.split()] returns it, without a ['#']: non-empty, no
    whitespace *)
Definition token_ok (w : string) : bool :=
  negb (String.eqb w "") && str_all tok_char w.

(** Each word after one space *)
Fixpoint words_text (ws : list string) : string :=
  match ws with
  | [] => EmptyString
  | w :: rest => String " " (w ++ words_text rest)
  end.

(** A source line: a mnemonic, then each operand in decimal after one space *)
Definition source_line (mnemonic : string) (ops : list Z) : string :=
  (mnemonic ++ words_text (decimal <$> ops))%string.

(** Lines joined with ["\n"] *)
Fixpoint join_lines (lines : list string) : string :=
  match lines with
  | [] => EmptyString
  | [l] => l
  | l :: rest => (l ++ String "010" (join_lines rest))%string
  end.

(** The source text of a program, one instruction per line *)
Definition program_text (instrs : list Instruction) : string :=
  join_lines ((fun i => source_line (mnemonic_of i) (operands i)) <$> instrs).

(* ------------------------------------------------------------------ *)
(** ** Example inputs of the extra properties *)

(** [READ_MEM 1 0 1] over memory [2; 5; 9; 4]: the effective address is
    [m[0] + 1 = 3], and [m[3] = 4] goes to cell 1. *)
Definition read_mem_example_vm : VM := mkVM [2; 5; 9; 4] [168; 0; 0; 0; 0; 2; 0; 0; 0] 0.

(** [WRITE_MEM 2 0] over the same memory: [m[2] = 9] goes to cell 0. *)
Definition write_mem_example_vm : VM := mkVM [2; 5; 9; 4] [101; 1; 0; 0; 0; 0; 0; 0] 0.

(** [LOAD_CONST 7 2] on a machine of 2 cells: the address is out of range. *)
Definition index_error_example_vm : VM := mkVM [0; 0] load_example_code 0.

(** [LOAD_CONST 7 2; LOAD_CONST 1 9] and its binary *)
Definition example_program : list Instruction := [LoadConst 7 2; LoadConst 1 9].

Definition example_binary : list Z := [239; 3; 8; 0; 0; 0; 239; 0; 36; 0; 0; 0].

(** Its run on a machine of 4 cells stops at the second instruction. *)
Definition example_run_vm : VM := load_program (VirtualMachine 4) example_binary.

Definition example_stop_vm : VM := mkVM [0; 0; 7; 0] example_binary 6.

(** A source with a comment line and a lower-case mnemonic, and one whose
    third line has an unknown mnemonic *)
Definition example_source : string :=
  ("LOAD_CONST 7 2" ++ String "010" ("   # comment" ++ String "010" "read_mem 0 1 2"))%string.

Definition failing_source : string :=
  ("LOAD_CONST 7 2" ++ String "010" ("READ_MEM 0 1 2" ++ String "010" "bad"))%string.


(* ------------------------------------------------------------------ *)
(** ** Bit-level lemmas *)

Lemma testbit_small x w j : 0 <= x < 2 ^ w -> w <= j -> Z.testbit x j = false.
Proof.
  intros Hx Hj.
  assert (0 <= w).
  { destruct (Z.ltb_spec w 0); [|lia]. rewrite Z.pow_neg_r in Hx; lia. }
  apply Z.testbit_false; [lia|].
  rewrite Z.div_small; [reflexivity|]. split; [lia|].
  apply Z.lt_le_trans with (2 ^ w); [lia|]. apply Z.pow_le_mono_r; lia.
Qed.

Lemma below_pow2 x n :
  0 <= n -> 0 <= x -> (forall j, n <= j -> Z.testbit x j = false) -> x < 2 ^ n.
Proof.
  intros Hn Hx Hb.
  assert (E : x = x mod 2 ^ n).
  { apply Z.bits_inj'; intros j Hj. destruct (Z.ltb_spec j n).
    - rewrite Z.mod_pow2_bits_low; auto.
    - rewrite Z.mod_pow2_bits_high by lia. apply Hb; lia. }
  rewrite E. apply Z.mod_pos_bound. apply Z.pow_pos_nonneg; lia.
Qed.

Lemma testbit_shl x s j :
  0 <= s -> Z.testbit (Z.shiftl x s) j = if j <? s then false else Z.testbit x (j - s).
Proof.
  intros Hs. destruct (Z.ltb_spec j s).
  - apply Z.shiftl_spec_low; lia.
  - apply Z.shiftl_spec_high; lia.
Qed.

Lemma mask_ones n : 0 <= n -> Z.shiftl 1 n - 1 = Z.ones n.
Proof. intros Hn. rewrite Z.ones_equiv, Z.shiftl_1_l. lia. Qed.

(** [lia] after turning [/] and [mod] by constants into equations *)
Ltac zlia := Z.div_mod_to_equations; lia.

(** Case analysis on the bit positions of a packed word. *)
Ltac bit_cases :=
  repeat match goal with
  | |- context [Z.ltb ?a ?b] => destruct (Z.ltb_spec a b)
  end;
  repeat match goal with
  | H : 0 <= ?x < 2 ^ ?w |- context [Z.testbit ?x ?e] =>
      rewrite (testbit_small x w e H) by lia
  end;
  rewrite ?orb_false_l, ?orb_false_r;
  try lia; try reflexivity; try (f_equal; lia).

Lemma testbit_from_bytes l k :
  Forall byte_ok l -> 0 <= k -> Z.testbit (int_from_bytes l) k = buf_bit l k.
Proof.
  unfold buf_bit. revert k. induction l as [|b l IH]; intros k Hl Hk.
  - simpl. rewrite !Z.testbit_0_l. reflexivity.
  - inversion Hl as [|? ? Hb Hl']; subst. unfold byte_ok in Hb. simpl int_from_bytes.
    destruct (Z.ltb_spec k 8).
    + replace (k / 8) with 0 by zlia. replace (k mod 8) with k by zlia. simpl.
      rewrite <- (Z.mod_pow2_bits_low _ 8) by lia.
      f_equal. change (2 ^ 8) with 256.
      rewrite Z_mod_plus_full. apply Z.mod_small; lia.
    + replace (Z.to_nat (k / 8)) with (S (Z.to_nat ((k - 8) / 8))) by zlia.
      simpl. replace (k mod 8) with ((k - 8) mod 8) by zlia.
      rewrite <- IH by (auto || lia).
      replace k with ((k - 8) + 8) at 1 by lia.
      rewrite <- Z.shiftr_spec by lia. f_equal.
      rewrite Z.shiftr_div_pow2 by lia. change (2 ^ 8) with 256.
      rewrite Z_div_plus_full by lia. rewrite Z.div_small by lia. lia.
Qed.

Lemma lookup_py_slice l a b j :
  0 <= a -> a <= b -> Z.of_nat j < b - a ->
  py_slice l a b !! j = l !! (Z.to_nat a + j)%nat.
Proof.
  intros Ha Hab Hj. unfold py_slice, py_slice_index.
  destruct (Z.ltb_spec a 0); [lia|]. destruct (Z.ltb_spec b 0); [lia|].
  set (len := length l).
  destruct (Z.leb_spec (Z.of_nat len) a).
  - rewrite Z.min_r by lia. rewrite Z.min_r by lia.
    replace (Z.to_nat (Z.of_nat len - Z.of_nat len)) with 0%nat by lia.
    simpl. symmetry. apply lookup_ge_None. lia.
  - rewrite (Z.min_l a) by lia.
    destruct (Nat.ltb_spec j (Z.to_nat (Z.min b (Z.of_nat len) - a))).
    + rewrite lookup_take_lt by lia. rewrite lookup_drop. reflexivity.
    + rewrite lookup_take_ge by lia. symmetry. apply lookup_ge_None. lia.
Qed.

Lemma Forall_byte_py_slice l a b :
  Forall byte_ok l -> Forall byte_ok (py_slice l a b).
Proof. intros H. unfold py_slice. apply Forall_take, Forall_drop, H. Qed.

(** Bit [i] of [read_bits vm start length] is bit [8 * pc + start + i] of the
    instruction buffer, for [i < length]; the higher bits are 0. *)
Lemma read_bits_testbit vm start length i :
  Forall byte_ok (code_memory vm) -> 0 <= pc vm -> 0 <= start -> 0 <= length ->
  0 <= i ->
  Z.testbit (read_bits vm start length) i =
  (i <? length) && buf_bit (code_memory vm) (8 * pc vm + start + i).
Proof.
  intros Hbytes Hpc Hs Hlen Hi. unfold read_bits. cbv zeta.
  rewrite mask_ones by lia. rewrite Z.land_spec, Z.testbit_ones by lia.
  rewrite Z.shiftr_spec by lia.
  rewrite testbit_from_bytes; [| apply Forall_byte_py_slice, Hbytes | zlia].
  destruct (Z.leb_spec 0 i); [|lia]. destruct (Z.ltb_spec i length); simpl;
    [|apply andb_false_r].
  rewrite andb_true_r. unfold buf_bit.
  rewrite lookup_py_slice.
  2: { assert (0 <= start / 8) by (apply Z.div_pos; lia). lia. }
  2: { zlia. }
  2: { rewrite Z2Nat.id by (apply Z.div_pos; zlia). zlia. }
  replace (Z.to_nat ((8 * pc vm + start + i) / 8))
    with (Z.to_nat (pc vm + start / 8) + Z.to_nat ((i + start mod 8) / 8))%nat
    by zlia.
  f_equal. zlia.
Qed.

(* ------------------------------------------------------------------ *)
(** ** Encoding lemmas *)

Lemma int_to_bytes_spec v n enc :
  int_to_bytes v n = inr enc ->
  0 <= v < 2 ^ (8 * Z.of_nat n) /\
  enc = (fun i => Z.land (Z.shiftr v (8 * Z.of_nat i)) 255) <$> seq 0 n.
Proof.
  unfold int_to_bytes.
  destruct (Z.leb_spec 0 v), (Z.ltb_spec v (2 ^ (8 * Z.of_nat n)));
    simpl; intros E; inversion E; auto.
Qed.

Lemma int_to_bytes_length v n enc : int_to_bytes v n = inr enc -> length enc = n.
Proof.
  intros H. apply int_to_bytes_spec in H as [_ ->].
  rewrite length_fmap, length_seq. reflexivity.
Qed.

Lemma int_to_bytes_byte_ok v n enc : int_to_bytes v n = inr enc -> Forall byte_ok enc.
Proof.
  intros H. apply int_to_bytes_spec in H as [_ ->].
  apply Forall_fmap, Forall_forall. intros x _. unfold byte_ok; simpl.
  change 255 with (Z.ones 8). rewrite Z.land_ones by lia.
  apply Z.mod_pos_bound. lia.
Qed.

Lemma buf_bit_bytes pre enc post v n k :
  int_to_bytes v n = inr enc -> 0 <= k < 8 * Z.of_nat n ->
  buf_bit (pre ++ enc ++ post) (8 * Z.of_nat (length pre) + k) = Z.testbit v k.
Proof.
  intros H Hk. pose proof (int_to_bytes_length _ _ _ H) as Hlen.
  apply int_to_bytes_spec in H as [Hv Henc]. unfold buf_bit.
  replace (Z.to_nat ((8 * Z.of_nat (length pre) + k) / 8))
    with (length pre + Z.to_nat (k / 8))%nat by zlia.
  replace ((8 * Z.of_nat (length pre) + k) mod 8) with (k mod 8) by zlia.
  rewrite lookup_app_r by lia.
  replace (length pre + Z.to_nat (k / 8) - length pre)%nat
    with (Z.to_nat (k / 8)) by lia.
  rewrite lookup_app_l by zlia.
  rewrite Henc, list_lookup_fmap, lookup_seq_lt by zlia. simpl.
  change 255 with (Z.ones 8).
  rewrite Z.land_spec, Z.testbit_ones by zlia.
  replace ((0 <=? k mod 8) && (k mod 8 <? 8)) with true
    by (symmetry; apply andb_true_iff; split; [apply Z.leb_le | apply Z.ltb_lt]; zlia).
  rewrite andb_true_r, Z.shiftr_spec by zlia. f_equal. zlia.
Qed.

(** Reading back a field of an encoding placed at [pc] in the buffer. *)
Lemma read_bits_encoded v n enc mem pre post off w j :
  int_to_bytes v n = inr enc -> Forall byte_ok pre -> Forall byte_ok post ->
  0 <= off -> 0 <= w -> off + w <= 8 * Z.of_nat n -> 0 <= j ->
  Z.testbit (read_bits (mkVM mem (pre ++ enc ++ post) (Z.of_nat (length pre))) off w) j
  = (j <? w) && Z.testbit v (off + j).
Proof.
  intros H Hpre Hpost Hoff Hw Hn Hj.
  rewrite read_bits_testbit; simpl; try lia.
  2: { apply Forall_app; split; [exact Hpre|].
       apply Forall_app; split; [eapply int_to_bytes_byte_ok; eauto | exact Hpost]. }
  destruct (Z.ltb_spec j w); simpl; [|reflexivity].
  replace (8 * Z.of_nat (length pre) + off + j)
    with (8 * Z.of_nat (length pre) + (off + j)) by lia.
  eapply buf_bit_bytes; eauto. lia.
Qed.

(** A packed field word below [2^n] *)
Lemma lor_below x y n :
  0 <= n -> 0 <= x < 2 ^ n -> 0 <= y < 2 ^ n -> 0 <= Z.lor x y < 2 ^ n.
Proof.
  intros Hn Hx Hy. assert (0 <= Z.lor x y) by (apply Z.lor_nonneg; lia).
  split; [lia|]. apply below_pow2; [lia|lia|].
  intros j Hj. rewrite Z.lor_spec, (testbit_small x n), (testbit_small y n); auto.
Qed.

Lemma shl_below x s w n :
  0 <= s -> 0 <= x < 2 ^ w -> s + w <= n -> 0 <= Z.shiftl x s < 2 ^ n.
Proof.
  intros Hs Hx Hn. assert (0 <= w).
  { destruct (Z.ltb_spec w 0); [|lia]. rewrite Z.pow_neg_r in Hx; lia. }
  rewrite Z.shiftl_mul_pow2 by lia. split; [apply Z.mul_nonneg_nonneg; lia|].
  apply Z.lt_le_trans with (2 ^ w * 2 ^ s).
  - apply Z.mul_lt_mono_pos_r; [apply Z.pow_pos_nonneg|]; lia.
  - rewrite <- Z.pow_add_r by lia. apply Z.pow_le_mono_r; lia.
Qed.

Ltac fit_solve :=
  match goal with
  | |- 0 <= Z.lor _ _ < _ => apply lor_below; [lia | fit_solve | fit_solve]
  | |- 0 <= Z.shiftl _ _ < _ =>
      eapply shl_below; [lia | split; eassumption | lia]
  | _ => lia
  end.

Lemma packed_value_bound i :
  operands_fit i -> 0 <= packed_value i < 2 ^ (8 * Z.of_nat (byte_count i)).
Proof.
  destruct i; cbn [packed_value byte_count opcode operands_fit]; intros Hfit;
    decompose [and] Hfit;
    try change (Z.of_nat 6) with 6; try change (Z.of_nat 9) with 9;
    try change (Z.of_nat 8) with 8; try change (Z.of_nat 13) with 13;
    fit_solve.
Qed.

Lemma to_bytes_fit i :
  operands_fit i ->
  exists enc, to_bytes i = inr enc /\ length enc = byte_count i.
Proof.
  intros Hfit. pose proof (packed_value_bound i Hfit) as Hb.
  unfold to_bytes, int_to_bytes.
  destruct (Z.leb_spec 0 (packed_value i)); [|lia].
  destruct (Z.ltb_spec (packed_value i) (2 ^ (8 * Z.of_nat (byte_count i)))); [|lia].
  simpl. eexists; split; [reflexivity|]. rewrite length_fmap, length_seq. reflexivity.
Qed.

(** Decoding one field of a packed word, bit by bit. *)
Ltac field_bits :=
  match goal with
  | |- (?j <? ?w) && _ = _ =>
      destruct (Z.ltb_spec j w);
      [ rewrite andb_true_l, !Z.lor_spec, !testbit_shl by lia; bit_cases
      | rewrite andb_false_l; symmetry; apply (testbit_small _ w); lia ]
  end.

(** Successful construction: the operands are stored unchanged and fit. *)
Ltac ctor_cases :=
  repeat match goal with
  | |- context [?a <=? ?b] => destruct (Z.leb_spec a b)
  | |- context [?a <? ?b] => destruct (Z.ltb_spec a b)
  end; simpl.

Lemma LoadConstInstruction_ok c a i :
  LoadConstInstruction c a = inr i -> i = LoadConst c a /\ operands_fit i.
Proof.
  unfold LoadConstInstruction, check_range, seq_check. ctor_cases;
    intros E; inversion E; subst; simpl; try lia; split; [reflexivity | lia].
Qed.

Lemma ReadMemInstruction_ok o s d i :
  ReadMemInstruction o s d = inr i -> i = ReadMem o s d /\ operands_fit i.
Proof.
  unfold ReadMemInstruction, check_range, seq_check. ctor_cases;
    intros E; inversion E; subst; simpl; try lia; split; [reflexivity | lia].
Qed.

Lemma WriteMemInstruction_ok s d i :
  WriteMemInstruction s d = inr i -> i = WriteMem s d /\ operands_fit i.
Proof.
  unfold WriteMemInstruction, check_range, seq_check. ctor_cases;
    intros E; inversion E; subst; simpl; try lia; split; [reflexivity | lia].
Qed.

Lemma GTEInstruction_ok o1 a1 a2 r o2 i :
  GTEInstruction o1 a1 a2 r o2 = inr i -> i = GTE o1 a1 a2 r o2 /\ operands_fit i.
Proof.
  unfold GTEInstruction, check_range, seq_check. ctor_cases;
    intros E; inversion E; subst; simpl; try lia; split; [reflexivity | lia].
Qed.

(* ------------------------------------------------------------------ *)
(** ** Claims about the encoding *)

(** C1 (round trip): for every instruction whose operands fit their declared
    widths, [to_bytes] succeeds, and wherever the encoding is placed in the
    instruction buffer, [read_bits] with [pc] at its first byte reads back,
    at the offsets and widths of the section 4.2 layout table, the opcode and
    every operand unchanged. *)
Theorem encode_read_fields_roundtrip i :
  operands_fit i ->
  exists enc, to_bytes i = inr enc /\
    forall mem pre post, Forall byte_ok pre -> Forall byte_ok post ->
      read_fields (mkVM mem (pre ++ enc ++ post) (Z.of_nat (length pre))) i
      = field_values i.
Proof.
  intros Hfit. destruct (to_bytes_fit i Hfit) as (enc & He & _).
  exists enc. split; [exact He|]. intros mem pre post Hpre Hpost.
  unfold to_bytes in He.
  destruct i; cbn [read_fields field_layout field_values map opcode];
    cbn [operands_fit] in Hfit;
    repeat f_equal; apply Z.bits_inj'; intros j Hj;
    (rewrite (read_bits_encoded _ _ _ _ _ _ _ _ j He Hpre Hpost);
     [| lia | lia | simpl; lia | lia]);
    cbn [packed_value opcode];
    assert (0 <= 111 < 2 ^ 7) by lia; assert (0 <= 40 < 2 ^ 7) by lia;
    assert (0 <= 101 < 2 ^ 7) by lia; assert (0 <= 68 < 2 ^ 7) by lia;
    repeat match goal with H : (0 <= _ < _) /\ _ |- _ => destruct H end;
    field_bits.
Qed.

(** C4 (bit-field extraction): for any buffer of bytes, [pc >= 0],
    [start_bit >= 0] and [length >= 1], [read_bits] returns an unsigned integer
    below [2^length] whose bit [i] ([0 <= i < length]) is bit
    [8 * pc + start_bit + i] of the buffer read little-endian.  Nothing limits
    the width, and the start need not be byte-aligned.  Bits past the end of
    the buffer read as 0, so the bytes need not lie inside the buffer. *)
Theorem read_bits_extracts_field vm start_bit length :
  Forall byte_ok (code_memory vm) -> 0 <= pc vm -> 0 <= start_bit -> 1 <= length ->
  0 <= read_bits vm start_bit length < 2 ^ length /\
  forall i, 0 <= i < length ->
    Z.testbit (read_bits vm start_bit length) i
    = buf_bit (code_memory vm) (8 * pc vm + start_bit + i).
Proof.
  intros Hb Hpc Hs Hl.
  assert (Hnn : 0 <= read_bits vm start_bit length).
  { unfold read_bits. cbv zeta. rewrite mask_ones by lia.
    apply Z.land_nonneg. right. rewrite Z.ones_equiv.
    assert (0 < 2 ^ length) by (apply Z.pow_pos_nonneg; lia). lia. }
  split; [split; [exact Hnn|]|].
  - apply below_pow2; [lia | exact Hnn |]. intros j Hj.
    rewrite read_bits_testbit by (auto || lia).
    destruct (Z.ltb_spec j length); [lia | reflexivity].
  - intros i Hi. rewrite read_bits_testbit by (auto || lia).
    destruct (Z.ltb_spec i length); [reflexivity | lia].
Qed.

(** C5 (byte length): every instruction returned by its constructor is
    encoded by [to_bytes] without error, in exactly 6 (LoadConst), 9 (ReadMem),
    8 (WriteMem) or 13 (GTE) bytes, whatever its operands. *)
Theorem to_bytes_fixed_length :
  (forall c a i, LoadConstInstruction c a = inr i ->
     exists bs, to_bytes i = inr bs /\ length bs = 6%nat) /\
  (forall o s d i, ReadMemInstruction o s d = inr i ->
     exists bs, to_bytes i = inr bs /\ length bs = 9%nat) /\
  (forall s d i, WriteMemInstruction s d = inr i ->
     exists bs, to_bytes i = inr bs /\ length bs = 8%nat) /\
  (forall o1 a1 a2 r o2 i, GTEInstruction o1 a1 a2 r o2 = inr i ->
     exists bs, to_bytes i = inr bs /\ length bs = 13%nat).
Proof.
  repeat split; intros.
  - apply LoadConstInstruction_ok in H as [-> Hfit]. apply (to_bytes_fit _ Hfit).
  - apply ReadMemInstruction_ok in H as [-> Hfit]. apply (to_bytes_fit _ Hfit).
  - apply WriteMemInstruction_ok in H as [-> Hfit]. apply (to_bytes_fit _ Hfit).
  - apply GTEInstruction_ok in H as [-> Hfit]. apply (to_bytes_fit _ Hfit).
Qed.

(** C6 (range enforcement): a constructor that returns an instruction stores
    every operand unchanged, and every operand is within its width (no
    truncation or wrap-around).  For each operand, with the other operands in
    range, the value [2^width] makes the constructor raise a [ValueError]
    that reports the value and the allowed range [0, 2^width - 1], and the
    value [2^width - 1] is accepted. *)
Theorem constructors_enforce_ranges :
  (forall c a i, LoadConstInstruction c a = inr i -> i = LoadConst c a /\ operands_fit i) /\
  (forall o s d i, ReadMemInstruction o s d = inr i -> i = ReadMem o s d /\ operands_fit i) /\
  (forall s d i, WriteMemInstruction s d = inr i -> i = WriteMem s d /\ operands_fit i) /\
  (forall o1 a1 a2 r o2 i, GTEInstruction o1 a1 a2 r o2 = inr i ->
     i = GTE o1 a1 a2 r o2 /\ operands_fit i) /\
  (* LoadConst: constant (11 bits), address (26 bits) *)
  (forall a, 0 <= a < 2 ^ 26 ->
     LoadConstInstruction (2 ^ 11) a
       = inl (ValueError (RangeMsg "constant" (2 ^ 11) 0 (2 ^ 11 - 1))) /\
     LoadConstInstruction (2 ^ 11 - 1) a = inr (LoadConst (2 ^ 11 - 1) a)) /\
  (forall c, 0 <= c < 2 ^ 11 ->
     LoadConstInstruction c (2 ^ 26)
       = inl (ValueError (RangeMsg "address" (2 ^ 26) 0 (2 ^ 26 - 1))) /\
     LoadConstInstruction c (2 ^ 26 - 1) = inr (LoadConst c (2 ^ 26 - 1))) /\
  (* ReadMem: offset (8 bits), src_addr, dst_addr (26 bits) *)
  (forall s d, 0 <= s < 2 ^ 26 -> 0 <= d < 2 ^ 26 ->
     ReadMemInstruction (2 ^ 8) s d
       = inl (ValueError (RangeMsg "offset" (2 ^ 8) 0 (2 ^ 8 - 1))) /\
     ReadMemInstruction (2 ^ 8 - 1) s d = inr (ReadMem (2 ^ 8 - 1) s d)) /\
  (forall o d, 0 <= o < 2 ^ 8 -> 0 <= d < 2 ^ 26 ->
     ReadMemInstruction o (2 ^ 26) d
       = inl (ValueError (RangeMsg "address" (2 ^ 26) 0 (2 ^ 26 - 1))) /\
     ReadMemInstruction o (2 ^ 26 - 1) d = inr (ReadMem o (2 ^ 26 - 1) d)) /\
  (forall o s, 0 <= o < 2 ^ 8 -> 0 <= s < 2 ^ 26 ->
     ReadMemInstruction o s (2 ^ 26)
       = inl (ValueError (RangeMsg "address" (2 ^ 26) 0 (2 ^ 26 - 1))) /\
     ReadMemInstruction o s (2 ^ 26 - 1) = inr (ReadMem o s (2 ^ 26 - 1))) /\
  (* WriteMem: src_addr, dst_addr (26 bits) *)
  (forall d, 0 <= d < 2 ^ 26 ->
     WriteMemInstruction (2 ^ 26) d
       = inl (ValueError (RangeMsg "address" (2 ^ 26) 0 (2 ^ 26 - 1))) /\
     WriteMemInstruction (2 ^ 26 - 1) d = inr (WriteMem (2 ^ 26 - 1) d)) /\
  (forall s, 0 <= s < 2 ^ 26 ->
     WriteMemInstruction s (2 ^ 26)
       = inl (ValueError (RangeMsg "address" (2 ^ 26) 0 (2 ^ 26 - 1))) /\
     WriteMemInstruction s (2 ^ 26 - 1) = inr (WriteMem s (2 ^ 26 - 1))) /\
  (* GTE: offset1 (8), addr1, addr2, res_addr (26), offset2 (8) *)
  (forall a1 a2 r o2, 0 <= a1 < 2 ^ 26 -> 0 <= a2 < 2 ^ 26 -> 0 <= r < 2 ^ 26 ->
     0 <= o2 < 2 ^ 8 ->
     GTEInstruction (2 ^ 8) a1 a2 r o2
       = inl (ValueError (RangeMsg "offset1" (2 ^ 8) 0 (2 ^ 8 - 1))) /\
     GTEInstruction (2 ^ 8 - 1) a1 a2 r o2 = inr (GTE (2 ^ 8 - 1) a1 a2 r o2)) /\
  (forall o1 a2 r o2, 0 <= o1 < 2 ^ 8 -> 0 <= a2 < 2 ^ 26 -> 0 <= r < 2 ^ 26 ->
     0 <= o2 < 2 ^ 8 ->
     GTEInstruction o1 (2 ^ 26) a2 r o2
       = inl (ValueError (RangeMsg "address1" (2 ^ 26) 0 (2 ^ 26 - 1))) /\
     GTEInstruction o1 (2 ^ 26 - 1) a2 r o2 = inr (GTE o1 (2 ^ 26 - 1) a2 r o2)) /\
  (forall o1 a1 r o2, 0 <= o1 < 2 ^ 8 -> 0 <= a1 < 2 ^ 26 -> 0 <= r < 2 ^ 26 ->
     0 <= o2 < 2 ^ 8 ->
     GTEInstruction o1 a1 (2 ^ 26) r o2
       = inl (ValueError (RangeMsg "address2" (2 ^ 26) 0 (2 ^ 26 - 1))) /\
     GTEInstruction o1 a1 (2 ^ 26 - 1) r o2 = inr (GTE o1 a1 (2 ^ 26 - 1) r o2)) /\
  (forall o1 a1 a2 o2, 0 <= o1 < 2 ^ 8 -> 0 <= a1 < 2 ^ 26 -> 0 <= a2 < 2 ^ 26 ->
     0 <= o2 < 2 ^ 8 ->
     GTEInstruction o1 a1 a2 (2 ^ 26) o2
       = inl (ValueError (RangeMsg "result address" (2 ^ 26) 0 (2 ^ 26 - 1))) /\
     GTEInstruction o1 a1 a2 (2 ^ 26 - 1) o2 = inr (GTE o1 a1 a2 (2 ^ 26 - 1) o2)) /\
  (forall o1 a1 a2 r, 0 <= o1 < 2 ^ 8 -> 0 <= a1 < 2 ^ 26 -> 0 <= a2 < 2 ^ 26 ->
     0 <= r < 2 ^ 26 ->
     GTEInstruction o1 a1 a2 r (2 ^ 8)
       = inl (ValueError (RangeMsg "offset2" (2 ^ 8) 0 (2 ^ 8 - 1))) /\
     GTEInstruction o1 a1 a2 r (2 ^ 8 - 1) = inr (GTE o1 a1 a2 r (2 ^ 8 - 1))).
Proof.
  split; [exact LoadConstInstruction_ok|].
  split; [exact ReadMemInstruction_ok|].
  split; [exact WriteMemInstruction_ok|].
  split; [exact GTEInstruction_ok|].
  repeat match goal with |- _ /\ _ => split end;
    intros; split;
    unfold LoadConstInstruction, ReadMemInstruction, WriteMemInstruction,
      GTEInstruction, check_range, seq_check;
    ctor_cases; first [reflexivity | lia].
Qed.

(* ------------------------------------------------------------------ *)
(** ** Interpreter lemmas *)

Lemma py_get_in l i :
  0 <= i < Z.of_nat (length l) -> py_get l i = inr (mem_at l i).
Proof.
  intros Hi. unfold py_get, py_index, mem_at.
  destruct (Z.ltb_spec i 0); [lia|].
  destruct (Z.leb_spec 0 i); [|lia]. destruct (Z.ltb_spec i (Z.of_nat (length l))); [|lia].
  reflexivity.
Qed.

Lemma py_set_in l i v :
  0 <= i < Z.of_nat (length l) -> py_set l i v = inr (<[Z.to_nat i := v]> l).
Proof.
  intros Hi. unfold py_set, py_index.
  destruct (Z.ltb_spec i 0); [lia|].
  destruct (Z.leb_spec 0 i); [|lia]. destruct (Z.ltb_spec i (Z.of_nat (length l))); [|lia].
  reflexivity.
Qed.

Lemma py_get_nonneg l i v :
  0 <= i -> py_get l i = inr v -> i < Z.of_nat (length l) /\ v = mem_at l i.
Proof.
  intros Hi. unfold py_get, py_index, mem_at.
  destruct (Z.ltb_spec i 0); [lia|].
  destruct ((0 <=? i) && (i <? Z.of_nat (length l))) eqn:E; intros Hr; inversion Hr.
  apply andb_true_iff in E as [_ E]. apply Z.ltb_lt in E. auto.
Qed.

Lemma py_set_nonneg l i v m :
  0 <= i -> py_set l i v = inr m ->
  i < Z.of_nat (length l) /\ m = <[Z.to_nat i := v]> l.
Proof.
  intros Hi. unfold py_set, py_index.
  destruct (Z.ltb_spec i 0); [lia|].
  destruct ((0 <=? i) && (i <? Z.of_nat (length l))) eqn:E; intros Hr; inversion Hr.
  apply andb_true_iff in E as [_ E]. apply Z.ltb_lt in E. auto.
Qed.

Lemma py_get_elem l i v : py_get l i = inr v -> exists k, l !! k = Some v.
Proof.
  unfold py_get, py_index.
  destruct (_ && _) eqn:E; intros Hr; inversion Hr; subst.
  apply andb_true_iff in E as [E1 E2]. apply Z.leb_le in E1. apply Z.ltb_lt in E2.
  destruct (l !! _) eqn:Hl; [eauto|].
  apply lookup_ge_None in Hl. destruct (i <? 0); lia.
Qed.

Lemma py_set_insert l i v m :
  py_set l i v = inr m -> exists k, (k < length l)%nat /\ m = <[k := v]> l.
Proof.
  unfold py_set, py_index.
  destruct (_ && _) eqn:E; intros Hr; inversion Hr; subst.
  apply andb_true_iff in E as [E1 E2]. apply Z.leb_le in E1. apply Z.ltb_lt in E2.
  eexists; split; [|reflexivity]. destruct (i <? 0); lia.
Qed.

Lemma read_bits_range vm start length :
  0 <= length -> 0 <= read_bits vm start length < 2 ^ length.
Proof.
  intros Hl. unfold read_bits. cbv zeta. rewrite mask_ones, Z.land_ones by lia.
  apply Z.mod_pos_bound. apply Z.pow_pos_nonneg; lia.
Qed.

(** Unfolding the method monad *)
Ltac munfold :=
  unfold execute_load_const, execute_read_mem, execute_write_mem, execute_gte,
    bind, read_bits_m, mem_get, mem_set, pc_add, ret, raise, get_state in *;
  cbn beta iota zeta in *.

Ltac mcase :=
  repeat (match goal with
  | H : context [match py_get ?l ?i with _ => _ end] |- _ => destruct (py_get l i) eqn:?
  | H : context [match py_set ?l ?i ?v with _ => _ end] |- _ => destruct (py_set l i v) eqn:?
  | |- context [match py_get ?l ?i with _ => _ end] => destruct (py_get l i) eqn:?
  | |- context [match py_set ?l ?i ?v with _ => _ end] => destruct (py_set l i v) eqn:?
  end; cbn beta iota zeta in *).

Lemma execute_load_const_ok s t s' :
  execute_load_const s = (inr t, s') ->
  exists m, py_set (data_memory s) (read_bits s 18 26) (read_bits s 7 11) = inr m /\
    s' = mkVM m (code_memory s) (pc s + 6).
Proof. intros H. munfold. mcase; inversion H; subst; eauto. Qed.

Lemma execute_read_mem_ok s t s' :
  execute_read_mem s = (inr t, s') ->
  exists base v m,
    py_get (data_memory s) (read_bits s 15 26) = inr base /\
    py_get (data_memory s) (base + read_bits s 7 8) = inr v /\
    py_set (data_memory s) (read_bits s 41 26) v = inr m /\
    s' = mkVM m (code_memory s) (pc s + 9).
Proof. intros H. munfold. mcase; inversion H; subst; eauto 10. Qed.

Lemma execute_write_mem_ok s t s' :
  execute_write_mem s = (inr t, s') ->
  exists v m,
    py_get (data_memory s) (read_bits s 7 26) = inr v /\
    py_set (data_memory s) (read_bits s 33 26) v = inr m /\
    s' = mkVM m (code_memory s) (pc s + 8).
Proof. intros H. munfold. mcase; inversion H; subst; eauto 10. Qed.

Lemma execute_gte_ok s t s' :
  execute_gte s = (inr t, s') ->
  exists base1 base_res op1 op2 m,
    py_get (data_memory s) (read_bits s 15 26) = inr base1 /\
    py_get (data_memory s) (read_bits s 67 26) = inr base_res /\
    py_get (data_memory s) (base1 + read_bits s 7 8) = inr op1 /\
    py_get (data_memory s) (read_bits s 41 26) = inr op2 /\
    py_set (data_memory s) (base_res + read_bits s 93 8)
      (if op2 <=? op1 then 1 else 0) = inr m /\
    s' = mkVM m (code_memory s) (pc s + 13).
Proof. intros H. munfold. mcase; inversion H; subst; eauto 15. Qed.

(** A method that raises leaves the object as it was: every mutation of the
    [execute_*] methods is their last statement. *)
Lemma execute_load_const_fail s e s' : execute_load_const s = (inl e, s') -> s' = s.
Proof. intros H. munfold. mcase; inversion H; auto. Qed.

Lemma execute_read_mem_fail s e s' : execute_read_mem s = (inl e, s') -> s' = s.
Proof. intros H. munfold. mcase; inversion H; auto. Qed.

Lemma execute_write_mem_fail s e s' : execute_write_mem s = (inl e, s') -> s' = s.
Proof. intros H. munfold. mcase; inversion H; auto. Qed.

Lemma execute_gte_fail s e s' : execute_gte s = (inl e, s') -> s' = s.
Proof. intros H. munfold. mcase; inversion H; auto. Qed.

Ltac step_branches s Hs :=
  unfold step, bind, get_state, read_bits_m, ret, raise in Hs;
  cbn beta iota zeta in Hs;
  destruct (Z.leb_spec (Z.of_nat (length (code_memory s))) (pc s));
  [| destruct (Z.eqb_spec (read_bits s 0 7) 111);
     [| destruct (Z.eqb_spec (read_bits s 0 7) 40);
        [| destruct (Z.eqb_spec (read_bits s 0 7) 101);
           [| destruct (Z.eqb_spec (read_bits s 0 7) 68)]]]];
  try match type of Hs with
  | context [execute_load_const s] =>
      destruct (execute_load_const s) as [[?e|?x] ?s0] eqn:Hx
  | context [execute_read_mem s] =>
      destruct (execute_read_mem s) as [[?e|?x] ?s0] eqn:Hx
  | context [execute_write_mem s] =>
      destruct (execute_write_mem s) as [[?e|?x] ?s0] eqn:Hx
  | context [execute_gte s] =>
      destruct (execute_gte s) as [[?e|?x] ?s0] eqn:Hx
  end; cbn beta iota zeta in Hs.

Lemma step_Some s t s' :
  step s = (inr (Some t), s') ->
  pc s < Z.of_nat (length (code_memory s)) /\
  ((read_bits s 0 7 = 111 /\ execute_load_const s = (inr t, s')) \/
   (read_bits s 0 7 = 40 /\ execute_read_mem s = (inr t, s')) \/
   (read_bits s 0 7 = 101 /\ execute_write_mem s = (inr t, s')) \/
   (read_bits s 0 7 = 68 /\ execute_gte s = (inr t, s'))).
Proof.
  intros Hs; step_branches s Hs; inversion Hs; subst; split; try lia;
    first [ left; split; [assumption | reflexivity]
          | right; left; split; [assumption | reflexivity]
          | right; right; left; split; [assumption | reflexivity]
          | right; right; right; split; [assumption | reflexivity] ].
Qed.

Lemma step_None s s' :
  step s = (inr None, s') ->
  Z.of_nat (length (code_memory s)) <= pc s /\ s' = s.
Proof. intros Hs; step_branches s Hs; inversion Hs; subst; auto. Qed.

Lemma step_inl s e s' : step s = (inl e, s') -> s' = s.
Proof.
  intros Hs; step_branches s Hs; inversion Hs; subst; auto;
    eauto using execute_load_const_fail, execute_read_mem_fail,
      execute_write_mem_fail, execute_gte_fail.
Qed.

(** A successful step keeps the instruction buffer and advances [pc] by the
    byte length of the executed variant. *)
Lemma step_Some_pc s t s' :
  step s = (inr (Some t), s') ->
  code_memory s' = code_memory s /\
  ((read_bits s 0 7 = 111 /\ pc s' = pc s + 6) \/
   (read_bits s 0 7 = 40 /\ pc s' = pc s + 9) \/
   (read_bits s 0 7 = 101 /\ pc s' = pc s + 8) \/
   (read_bits s 0 7 = 68 /\ pc s' = pc s + 13)).
Proof.
  intros H. apply step_Some in H as [_ [(Hop & E)|[(Hop & E)|[(Hop & E)|(Hop & E)]]]].
  - apply execute_load_const_ok in E as (m & _ & ->). simpl.
    split; [reflexivity | left; auto].
  - apply execute_read_mem_ok in E as (? & ? & m & _ & _ & _ & ->). simpl.
    split; [reflexivity | right; left; auto].
  - apply execute_write_mem_ok in E as (? & m & _ & _ & ->). simpl.
    split; [reflexivity | right; right; left; auto].
  - apply execute_gte_ok in E as (? & ? & ? & ? & m & _ & _ & _ & _ & _ & ->). simpl.
    split; [reflexivity | right; right; right; auto].
Qed.

Lemma step_Some_progress s t s' :
  step s = (inr (Some t), s') ->
  code_memory s' = code_memory s /\ pc s + 6 <= pc s'.
Proof.
  intros H. apply step_Some_pc in H as [Hc Hp]. split; [exact Hc | lia].
Qed.

Lemma run_loop_fuel f g s :
  code_len s - pc s < Z.of_nat f -> code_len s - pc s < Z.of_nat g ->
  run_loop f s = run_loop g s.
Proof.
  unfold code_len. revert g s. induction f as [|f IH]; intros g s Hf Hg.
  - destruct g as [|g]; [reflexivity|]. cbn [run_loop]; unfold bind, get_state, ret; cbn beta iota.
    destruct (Z.ltb_spec (pc s) (Z.of_nat (length (code_memory s)))); [lia | reflexivity].
  - destruct g as [|g].
    + cbn [run_loop]; unfold bind, get_state, ret; cbn beta iota.
      destruct (Z.ltb_spec (pc s) (Z.of_nat (length (code_memory s)))); [lia | reflexivity].
    + cbn [run_loop]; unfold bind, get_state, ret; cbn beta iota.
      destruct (Z.ltb_spec (pc s) (Z.of_nat (length (code_memory s)))); [|reflexivity].
      destruct (step s) as [[e|[t|]] s'] eqn:Hs; try reflexivity.
      apply step_Some_progress in Hs as [Hc Hp].
      apply IH; rewrite Hc; lia.
Qed.

Lemma run_unfold s : run s = run_loop (S (Z.to_nat (code_len s - pc s))) s.
Proof. reflexivity. Qed.

Lemma run_loop_halts f s s' :
  code_len s - pc s < Z.of_nat f -> run_loop f s = (inr tt, s') ->
  code_len s' <= pc s' /\ code_memory s' = code_memory s.
Proof.
  unfold code_len. revert s. induction f as [|f IH]; intros s Hf H.
  - simpl in H. unfold ret in H. inversion H; subst. split; [lia | reflexivity].
  - cbn [run_loop] in H; unfold bind, get_state, ret in H; cbn beta iota in H.
    destruct (Z.ltb_spec (pc s) (Z.of_nat (length (code_memory s)))).
    + destruct (step s) as [[e|[t|]] s1] eqn:Hs; try discriminate.
      * pose proof (step_Some_progress _ _ _ Hs) as [Hc Hp].
        destruct (IH s1) as [H1 H2]; [rewrite Hc; lia | exact H | ].
        split; [exact H1 | congruence].
      * apply step_None in Hs. lia.
    + inversion H; subst. split; [lia | reflexivity].
Qed.

Lemma run_loop_steps s0 s1 :
  steps s0 s1 ->
  forall f, code_len s0 - pc s0 < Z.of_nat f ->
  exists f', code_len s1 - pc s1 < Z.of_nat f' /\
    run_loop f s0 = run_loop f' s1 /\ code_memory s1 = code_memory s0.
Proof.
  unfold code_len. induction 1 as [s|s t s' s'' Hs Hsteps IH]; intros f Hf.
  - exists f. auto.
  - pose proof (step_Some _ _ _ Hs) as [Hlt _].
    pose proof (step_Some_progress _ _ _ Hs) as [Hc Hp].
    destruct f as [|f]; [lia|].
    destruct (IH f) as (f' & Hf' & Hrun & Hc'); [rewrite Hc; lia|].
    exists f'. split; [exact Hf'|]. split; [|congruence].
    rewrite <- Hrun. cbn [run_loop]; unfold bind, get_state, ret; cbn beta iota.
    destruct (Z.ltb_spec (pc s) (Z.of_nat (length (code_memory s)))); [|lia].
    rewrite Hs. reflexivity.
Qed.

Lemma mem_at_cell l a : Forall cell_ok l -> cell_ok (mem_at l a).
Proof.
  intros Hl. unfold mem_at. destruct (l !! Z.to_nat a) eqn:E; simpl.
  - eapply Forall_lookup_1; eauto.
  - unfold cell_ok; lia.
Qed.

Lemma py_get_cell l i v : Forall cell_ok l -> py_get l i = inr v -> cell_ok v.
Proof.
  intros Hl H. apply py_get_elem in H as [k Hk]. eapply Forall_lookup_1; eauto.
Qed.

Lemma py_set_cell l i v m :
  Forall cell_ok l -> cell_ok v -> py_set l i v = inr m -> Forall cell_ok m.
Proof.
  intros Hl Hv H. apply py_set_insert in H as (k & _ & ->).
  apply Forall_insert; auto.
Qed.

Lemma step_cells s t s' :
  Forall cell_ok (data_memory s) -> step s = (inr (Some t), s') ->
  Forall cell_ok (data_memory s').
Proof.
  intros Hc H. apply step_Some in H as [_ [(_ & E)|[(_ & E)|[(_ & E)|(_ & E)]]]].
  - apply execute_load_const_ok in E as (m & Hm & ->). simpl.
    eapply py_set_cell; [exact Hc | | exact Hm].
    pose proof (read_bits_range s 7 11). unfold cell_ok. lia.
  - apply execute_read_mem_ok in E as (b & v & m & _ & Hv & Hm & ->). simpl.
    eapply py_set_cell; [exact Hc | | exact Hm]. eapply py_get_cell; eauto.
  - apply execute_write_mem_ok in E as (v & m & Hv & Hm & ->). simpl.
    eapply py_set_cell; [exact Hc | | exact Hm]. eapply py_get_cell; eauto.
  - apply execute_gte_ok in E as (b1 & br & o1 & o2 & m & _ & _ & _ & _ & Hm & ->).
    simpl. eapply py_set_cell; [exact Hc | | exact Hm].
    unfold cell_ok. destruct (o2 <=? o1); lia.
Qed.

Lemma reachable_cells s : reachable s -> Forall cell_ok (data_memory s).
Proof.
  induction 1 as [n|s code _ IH|s t s' _ IH Hs].
  - simpl. apply Forall_forall. intros x Hx. apply list_elem_of_In, repeat_spec in Hx.
    subst. unfold cell_ok. lia.
  - exact IH.
  - eapply step_cells; eauto.
Qed.

Lemma steps_reachable s0 s1 : steps s0 s1 -> reachable s0 -> reachable s1.
Proof.
  induction 1 as [s|s t s' s'' Hs _ IH]; intros H; auto.
  apply IH. eapply reach_step; eauto.
Qed.

Lemma run_loop_reachable f s r s' :
  reachable s -> run_loop f s = (r, s') -> reachable s'.
Proof.
  revert s. induction f as [|f IH]; intros s Hr H.
  - simpl in H. unfold ret in H. inversion H; subst. exact Hr.
  - cbn [run_loop] in H; unfold bind, get_state, ret in H; cbn beta iota in H.
    destruct (pc s <? Z.of_nat (length (code_memory s))).
    + destruct (step s) as [[e|[t|]] s1] eqn:Hs.
      * inversion H; subst. apply step_inl in Hs. subst. exact Hr.
      * eapply IH; [eapply reach_step; eauto | exact H].
      * inversion H; subst. apply step_None in Hs as [_ ->]. exact Hr.
    + inversion H; subst. exact Hr.
Qed.

(* ------------------------------------------------------------------ *)
(** ** The semantics of [Gte] *)

(** Claim C2.  A step on a [Gte] instruction with fields [offset1], [addr1],
    [addr2], [res_addr], [offset2] computes the effective address
    [m[addr1] + offset1] and the effective result address
    [m[res_addr] + offset2], reads operand 1 at the effective address and
    operand 2 at [addr2] itself (direct), and stores [1] at the effective
    result address when operand 1 >= operand 2 and [0] otherwise; every
    address involved is in bounds. *)
Theorem gte_step_semantics vm offset1 addr1 addr2 res_addr offset2
    effective_addr1 effective_res_addr operand1 operand2 :
  pc vm < code_len vm ->
  read_bits vm 0 7 = 68 ->
  read_bits vm 7 8 = offset1 -> read_bits vm 15 26 = addr1 ->
  read_bits vm 41 26 = addr2 -> read_bits vm 67 26 = res_addr ->
  read_bits vm 93 8 = offset2 ->
  effective_addr1 = mem_at (data_memory vm) addr1 + offset1 ->
  effective_res_addr = mem_at (data_memory vm) res_addr + offset2 ->
  operand1 = mem_at (data_memory vm) effective_addr1 ->
  operand2 = mem_at (data_memory vm) addr2 ->
  addr1 < Z.of_nat (length (data_memory vm)) ->
  addr2 < Z.of_nat (length (data_memory vm)) ->
  res_addr < Z.of_nat (length (data_memory vm)) ->
  0 <= effective_addr1 < Z.of_nat (length (data_memory vm)) ->
  0 <= effective_res_addr < Z.of_nat (length (data_memory vm)) ->
  step vm =
    (inr (Some (TGte effective_res_addr operand1 operand2
                  (if operand1 >=? operand2 then 1 else 0))),
     mkVM (<[Z.to_nat effective_res_addr := if operand1 >=? operand2 then 1 else 0]>
             (data_memory vm))
          (code_memory vm) (pc vm + 13)).
Proof.
  intros Hpc Hop H1 H2 H3 H4 H5 Hea1 Hera Hop1 Hop2 Ha1 Ha2 Hr He1 He2.
  pose proof (read_bits_range vm 15 26) as R1.
  pose proof (read_bits_range vm 41 26) as R2.
  pose proof (read_bits_range vm 67 26) as R3.
  unfold code_len in Hpc.
  unfold step, execute_gte, bind, get_state, read_bits_m, ret, raise,
    mem_get, mem_set, pc_add.
  cbn beta iota zeta.
  destruct (Z.leb_spec (Z.of_nat (length (code_memory vm))) (pc vm)); [lia|].
  rewrite Hop. cbn [Z.eqb Pos.eqb].
  rewrite H1, H2, H3, H4, H5.
  rewrite (py_get_in _ addr1) by lia. cbn beta iota.
  rewrite (py_get_in _ res_addr) by lia. cbn beta iota.
  rewrite <- Hea1, <- Hera.
  rewrite (py_get_in _ effective_addr1) by lia. cbn beta iota.
  rewrite (py_get_in _ addr2) by lia. cbn beta iota.
  rewrite <- Hop1, <- Hop2, Z.geb_leb.
  rewrite py_set_in by lia. reflexivity.
Qed.

(* ------------------------------------------------------------------ *)
(** ** Scenario B *)

(** Claim C3, as stated: the program [LOAD_CONST 10 0; LOAD_CONST 5 1;
    GTE 0 0 1 2 0] run on the zero-initialised machine does not end with
    [memory[2] == 1].  The [Gte] result address is indirect: it is
    [memory[2] + 0 = 0], and operand 1 is [memory[memory[0] + 0] =
    memory[10] = 0 < 5 = memory[1]], so [0] is written to cell 0. *)
Lemma scenario_B_memory2_not_1 :
  exists p m0 m1 m2, scenario_B_final = Some (p, m0, m1, m2) /\ m2 <> 1.
Proof.
  exists 25, 0, 5, 0. split; [vm_compute; reflexivity | discriminate].
Qed.

(** Claim C3, amended: the program assembles and runs to its end without
    error ([pc] = 25, the length of the binary), leaving [memory[0] = 0],
    [memory[1] = 5] and [memory[2] = 0]. *)
Theorem scenario_B_final_memory : scenario_B_final = Some (25, 0, 5, 0).
Proof. vm_compute. reflexivity. Qed.

(* ------------------------------------------------------------------ *)
(** ** The program counter and the run loop *)

Lemma run_loop_S_Some f s t s' :
  pc s < code_len s -> step s = (inr (Some t), s') -> run_loop (S f) s = run_loop f s'.
Proof.
  intros Hlt Hs. unfold code_len in Hlt.
  cbn [run_loop]; unfold bind, get_state; cbn beta iota.
  destruct (Z.ltb_spec (pc s) (Z.of_nat (length (code_memory s)))); [|lia].
  rewrite Hs. reflexivity.
Qed.

Lemma step_Some_run s t s' : step s = (inr (Some t), s') -> run s = run s'.
Proof.
  intros Hs. pose proof (step_Some _ _ _ Hs) as [Hlt _].
  pose proof (step_Some_progress _ _ _ Hs) as [Hc Hp].
  rewrite !run_unfold. erewrite run_loop_S_Some; [| unfold code_len; exact Hlt | exact Hs].
  apply run_loop_fuel; unfold code_len in *; rewrite ?Hc; lia.
Qed.

Lemma step_inl_run s e s' :
  pc s < code_len s -> step s = (inl e, s') -> run s = (inl e, s).
Proof.
  intros Hlt Hs. pose proof (step_inl _ _ _ Hs) as ->.
  rewrite run_unfold. unfold code_len in *.
  cbn [run_loop]; unfold bind, get_state; cbn beta iota.
  destruct (Z.ltb_spec (pc s) (Z.of_nat (length (code_memory s)))); [|lia].
  rewrite Hs. reflexivity.
Qed.

Lemma step_end s : code_len s <= pc s -> step s = (inr None, s).
Proof.
  intros H. unfold code_len in H. unfold step, bind, get_state, ret.
  cbn beta iota. destruct (Z.leb_spec (Z.of_nat (length (code_memory s))) (pc s));
    [reflexivity | lia].
Qed.

Lemma steps_pc a b : steps a b -> pc a <= pc b /\ code_memory b = code_memory a.
Proof.
  induction 1 as [s|s t s' s'' Hs Hsteps IH]; [split; [lia | reflexivity]|].
  destruct IH as [IH1 IH2]. apply step_Some_progress in Hs as [Hc Hp]. split; [lia | congruence].
Qed.

(** Claim C7.  [load_program] sets [pc] to 0; a step that executes an
    instruction without error keeps the program and advances [pc] by the
    byte length of the variant of its opcode (6, 9, 8 or 13), so [pc] only
    grows along successful steps; at [pc >= len(code_memory)] the step and
    [run] stop at once; below it [run] goes on with the next step (or stops
    with the step's error); and whenever [run] returns normally,
    [pc >= len(code_memory)]. *)
Theorem pc_advances_and_run_halts :
  (forall vm code, pc (load_program vm code) = 0 /\ code_memory (load_program vm code) = code) /\
  (forall vm t vm', step vm = (inr (Some t), vm') ->
     code_memory vm' = code_memory vm /\
     ((read_bits vm 0 7 = 111 /\ pc vm' = pc vm + 6) \/
      (read_bits vm 0 7 = 40 /\ pc vm' = pc vm + 9) \/
      (read_bits vm 0 7 = 101 /\ pc vm' = pc vm + 8) \/
      (read_bits vm 0 7 = 68 /\ pc vm' = pc vm + 13))) /\
  (forall vm vm', steps vm vm' -> vm' <> vm -> pc vm < pc vm') /\
  (forall vm, code_len vm <= pc vm -> step vm = (inr None, vm) /\ run vm = (inr tt, vm)) /\
  (forall vm t vm', step vm = (inr (Some t), vm') -> pc vm < code_len vm /\ run vm = run vm') /\
  (forall vm e vm', pc vm < code_len vm -> step vm = (inl e, vm') -> run vm = (inl e, vm)) /\
  (forall vm vm', run vm = (inr tt, vm') ->
     code_len vm' <= pc vm' /\ code_memory vm' = code_memory vm).
Proof.
  split; [intros; split; reflexivity|].
  split; [exact step_Some_pc|].
  split.
  { intros vm vm' H Hne. destruct H as [s|s t s' s'' Hs Hsteps]; [congruence|].
    apply steps_pc in Hsteps as [Hp _]. apply step_Some_progress in Hs as [_ Hp'].
    lia. }
  split.
  { intros vm H. split; [now apply step_end|].
    rewrite run_unfold. unfold code_len in *.
    cbn [run_loop]; unfold bind, get_state, ret; cbn beta iota.
    destruct (Z.ltb_spec (pc vm) (Z.of_nat (length (code_memory vm)))); [lia | reflexivity]. }
  split.
  { intros vm t vm' Hs. split; [apply step_Some in Hs; exact (proj1 Hs) |].
    eapply step_Some_run; eauto. }
  split; [exact step_inl_run|].
  intros vm vm' H. rewrite run_unfold in H. eapply run_loop_halts; [|exact H]. lia.
Qed.

(* ------------------------------------------------------------------ *)
(** ** Unknown opcodes *)

Lemma step_unknown s :
  pc s < code_len s ->
  read_bits s 0 7 <> 111 -> read_bits s 0 7 <> 40 ->
  read_bits s 0 7 <> 101 -> read_bits s 0 7 <> 68 ->
  step s = (inl (ValueError (UnknownOpcodeMsg (read_bits s 0 7) (pc s))), s).
Proof.
  intros Hlt H1 H2 H3 H4. unfold code_len in Hlt.
  unfold step, bind, get_state, read_bits_m, raise. cbn beta iota zeta.
  destruct (Z.leb_spec (Z.of_nat (length (code_memory s))) (pc s)); [lia|].
  rewrite (proj2 (Z.eqb_neq _ _) H1), (proj2 (Z.eqb_neq _ _) H2),
    (proj2 (Z.eqb_neq _ _) H3), (proj2 (Z.eqb_neq _ _) H4).
  reflexivity.
Qed.

(** Claim C8.  At [pc < len(code_memory)], an opcode other than 111, 40,
    101 and 68 makes [step] raise the unknown-opcode [ValueError] (with the
    opcode and [pc]) and leaves the machine, [pc] and data memory included,
    as it was; and [run] from any earlier state that reaches it by successful
    steps stops with that error in exactly that state: the writes of the
    earlier steps stay. *)
Theorem unknown_opcode_stops_without_rollback :
  (forall vm,
     pc vm < code_len vm ->
     read_bits vm 0 7 <> 111 -> read_bits vm 0 7 <> 40 ->
     read_bits vm 0 7 <> 101 -> read_bits vm 0 7 <> 68 ->
     step vm = (inl (ValueError (UnknownOpcodeMsg (read_bits vm 0 7) (pc vm))), vm)) /\
  (forall vm0 vm1,
     steps vm0 vm1 ->
     pc vm1 < code_len vm1 ->
     read_bits vm1 0 7 <> 111 -> read_bits vm1 0 7 <> 40 ->
     read_bits vm1 0 7 <> 101 -> read_bits vm1 0 7 <> 68 ->
     run vm0 = (inl (ValueError (UnknownOpcodeMsg (read_bits vm1 0 7) (pc vm1))), vm1)).
Proof.
  split; [exact step_unknown|].
  intros vm0 vm1 Hsteps Hlt H1 H2 H3 H4.
  rewrite run_unfold.
  destruct (run_loop_steps _ _ Hsteps (S (Z.to_nat (code_len vm0 - pc vm0))))
    as (f & Hf & -> & _); [lia|].
  destruct f as [|f]; [lia|].
  cbn [run_loop]; unfold bind, get_state; cbn beta iota.
  unfold code_len in Hlt.
  destruct (Z.ltb_spec (pc vm1) (Z.of_nat (length (code_memory vm1)))); [|lia].
  rewrite step_unknown by (unfold code_len; assumption). reflexivity.
Qed.

(* ------------------------------------------------------------------ *)
(** ** The frame of a step *)

Lemma py_set_at l i v m :
  0 <= i -> py_set l i v = inr m ->
  0 <= i < Z.of_nat (length l) /\ m = <[Z.to_nat i := v]> l.
Proof. intros Hi H. apply py_set_nonneg in H as [H1 H2]; auto. Qed.

Lemma insert_frame (l : list Z) k v :
  length (<[k := v]> l) = length l /\
  (forall k', k' <> k -> <[k := v]> l !! k' = l !! k').
Proof.
  split; [apply length_insert|]. intros k' Hne. apply list_lookup_insert_ne. auto.
Qed.

(** Claim C9.  On a machine the engine can reach, a step that executes an
    instruction without error writes exactly one cell of data memory: the
    cell at [address] (LoadConst), at [dst_addr] (ReadMem, WriteMem) or at
    the effective result address [memory[res_addr] + offset2] (Gte), which
    is in bounds; all other cells, the length of data memory and the
    instruction buffer are unchanged. *)
Theorem step_writes_one_cell vm t vm' :
  reachable vm -> step vm = (inr (Some t), vm') ->
  code_memory vm' = code_memory vm /\
  length (data_memory vm') = length (data_memory vm) /\
  exists a v,
    ((read_bits vm 0 7 = 111 /\ a = read_bits vm 18 26) \/
     (read_bits vm 0 7 = 40 /\ a = read_bits vm 41 26) \/
     (read_bits vm 0 7 = 101 /\ a = read_bits vm 33 26) \/
     (read_bits vm 0 7 = 68 /\
      a = mem_at (data_memory vm) (read_bits vm 67 26) + read_bits vm 93 8)) /\
    0 <= a < Z.of_nat (length (data_memory vm)) /\
    data_memory vm' = <[Z.to_nat a := v]> (data_memory vm) /\
    (forall k, k <> Z.to_nat a -> data_memory vm' !! k = data_memory vm !! k).
Proof.
  intros Hr Hs. pose proof (reachable_cells _ Hr) as Hc.
  apply step_Some in Hs as [_ [(Hop & E)|[(Hop & E)|[(Hop & E)|(Hop & E)]]]].
  - apply execute_load_const_ok in E as (m & Hm & ->). simpl.
    pose proof (read_bits_range vm 18 26) as R.
    apply py_set_at in Hm as [Hb ->]; [|lia].
    destruct (insert_frame (data_memory vm) (Z.to_nat (read_bits vm 18 26))
                (read_bits vm 7 11)) as [Hl Hf].
    split; [reflexivity|]. split; [exact Hl|].
    exists (read_bits vm 18 26), (read_bits vm 7 11). auto 6.
  - apply execute_read_mem_ok in E as (b & v & m & _ & _ & Hm & ->). simpl.
    pose proof (read_bits_range vm 41 26) as R.
    apply py_set_at in Hm as [Hb ->]; [|lia].
    destruct (insert_frame (data_memory vm) (Z.to_nat (read_bits vm 41 26)) v) as [Hl Hf].
    split; [reflexivity|]. split; [exact Hl|].
    exists (read_bits vm 41 26), v. auto 7.
  - apply execute_write_mem_ok in E as (v & m & _ & Hm & ->). simpl.
    pose proof (read_bits_range vm 33 26) as R.
    apply py_set_at in Hm as [Hb ->]; [|lia].
    destruct (insert_frame (data_memory vm) (Z.to_nat (read_bits vm 33 26)) v) as [Hl Hf].
    split; [reflexivity|]. split; [exact Hl|].
    exists (read_bits vm 33 26), v. auto 8.
  - apply execute_gte_ok in E as (b1 & br & o1 & o2 & m & _ & Hbr & _ & _ & Hm & ->).
    simpl.
    pose proof (read_bits_range vm 67 26) as R.
    pose proof (read_bits_range vm 93 8) as R'.
    pose proof (py_get_cell _ _ _ Hc Hbr) as Cbr. unfold cell_ok in Cbr.
    apply py_get_nonneg in Hbr as [_ Hbr]; [|lia].
    apply py_set_at in Hm as [Hb ->]; [|lia].
    destruct (insert_frame (data_memory vm) (Z.to_nat (br + read_bits vm 93 8))
                (if o2 <=? o1 then 1 else 0)) as [Hl Hf].
    split; [reflexivity|]. split; [exact Hl|].
    exists (br + read_bits vm 93 8), (if o2 <=? o1 then 1 else 0).
    split; [right; right; right; split; [exact Hop | rewrite Hbr; reflexivity]|].
    auto.
Qed.

(* ------------------------------------------------------------------ *)
(** ** The range of data-memory cells *)

Lemma Forall_cell_lookup l :
  Forall cell_ok l -> forall k x, l !! k = Some x -> 0 <= x <= 2047.
Proof. intros Hl k x Hk. exact (Forall_lookup_1 _ _ _ _ Hl Hk). Qed.

(** Claim C10.  From the zero-initialised data memory of [VirtualMachine],
    after [load_program] of any binary and any sequence of successful steps,
    every cell holds an integer in [0, 2047]; the same holds in every state
    the engine can reach, and in the final state of [main]'s run, even when
    the run stops with an error. *)
Theorem cells_stay_in_range :
  (forall memory_size code vm,
     steps (load_program (VirtualMachine memory_size) code) vm ->
     forall k x, data_memory vm !! k = Some x -> 0 <= x <= 2047) /\
  (forall vm, reachable vm ->
     forall k x, data_memory vm !! k = Some x -> 0 <= x <= 2047) /\
  (forall memory_size code r vm',
     run_binary memory_size code = (r, vm') ->
     forall k x, data_memory vm' !! k = Some x -> 0 <= x <= 2047).
Proof.
  split; [|split].
  - intros n code vm Hs. apply Forall_cell_lookup, reachable_cells.
    eapply steps_reachable; [exact Hs|]. apply reach_load, reach_init.
  - intros vm Hr. apply Forall_cell_lookup, reachable_cells, Hr.
  - intros n code r vm' H. apply Forall_cell_lookup, reachable_cells.
    unfold run_binary in H. rewrite run_unfold in H.
    eapply run_loop_reachable; [|exact H]. apply reach_load, reach_init.
Qed.

(* ------------------------------------------------------------------ *)
(** ** Single instructions, step errors and the run loop *)

Lemma py_get_error l i e : py_get l i = inl e -> e = IndexError.
Proof. unfold py_get, py_index. destruct (_ && _); intros H; inversion H; auto. Qed.

Lemma py_set_error l i v e : py_set l i v = inl e -> e = IndexError.
Proof. unfold py_set, py_index. destruct (_ && _); intros H; inversion H; auto. Qed.

Lemma py_set_length l i v m : py_set l i v = inr m -> length m = length l.
Proof. intros H. apply py_set_insert in H as (k & _ & ->). apply length_insert. Qed.

Lemma py_get_out l i : Z.of_nat (length l) <= i -> py_get l i = inl IndexError.
Proof.
  intros H. unfold py_get, py_index.
  destruct (Z.ltb_spec i 0); [lia|].
  destruct (Z.ltb_spec i (Z.of_nat (length l))); [lia|]. rewrite andb_false_r. reflexivity.
Qed.

Lemma py_set_out l i v : Z.of_nat (length l) <= i -> py_set l i v = inl IndexError.
Proof.
  intros H. unfold py_set, py_index.
  destruct (Z.ltb_spec i 0); [lia|].
  destruct (Z.ltb_spec i (Z.of_nat (length l))); [lia|]. rewrite andb_false_r. reflexivity.
Qed.

Lemma execute_error s e s' :
  (execute_load_const s = (inl e, s') \/ execute_read_mem s = (inl e, s') \/
   execute_write_mem s = (inl e, s') \/ execute_gte s = (inl e, s')) ->
  e = IndexError.
Proof.
  intros [H|[H|[H|H]]]; munfold; mcase; inversion H; subst;
    eauto using py_get_error, py_set_error.
Qed.

Lemma step_error s e s' :
  step s = (inl e, s') ->
  s' = s /\ pc s < code_len s /\
  ((e = IndexError /\
    (read_bits s 0 7 = 111 \/ read_bits s 0 7 = 40 \/
     read_bits s 0 7 = 101 \/ read_bits s 0 7 = 68)) \/
   (e = ValueError (UnknownOpcodeMsg (read_bits s 0 7) (pc s)) /\
    read_bits s 0 7 <> 111 /\ read_bits s 0 7 <> 40 /\
    read_bits s 0 7 <> 101 /\ read_bits s 0 7 <> 68)).
Proof.
  intros Hs. pose proof (step_inl _ _ _ Hs) as Heq. split; [exact Heq|].
  unfold code_len. step_branches s Hs; inversion Hs; subst; (split; [lia|]).
  all: first
    [ right; split; [reflexivity | repeat split; assumption]
    | left; split;
      [ eapply execute_error;
        first [ left; eassumption | right; left; eassumption
              | right; right; left; eassumption | right; right; right; eassumption ]
      | tauto ] ].
Qed.

Lemma step_data_length s t s' :
  step s = (inr (Some t), s') ->
  length (data_memory s') = length (data_memory s).
Proof.
  intros H. apply step_Some in H as [_ [(_ & E)|[(_ & E)|[(_ & E)|(_ & E)]]]].
  - apply execute_load_const_ok in E as (m & Hm & ->). eapply py_set_length; eauto.
  - apply execute_read_mem_ok in E as (? & ? & m & _ & _ & Hm & ->). eapply py_set_length; eauto.
  - apply execute_write_mem_ok in E as (? & m & _ & Hm & ->). eapply py_set_length; eauto.
  - apply execute_gte_ok in E as (? & ? & ? & ? & m & _ & _ & _ & _ & Hm & ->).
    eapply py_set_length; eauto.
Qed.

Lemma run_loop_outcome f s r s' :
  code_len s - pc s < Z.of_nat f -> run_loop f s = (r, s') ->
  steps s s' /\
  ((r = inr tt /\ code_len s' <= pc s') \/
   (exists e, r = inl e /\ pc s' < code_len s' /\ step s' = (inl e, s'))).
Proof.
  revert s. induction f as [|f IH]; intros s Hf H.
  { simpl in H. unfold ret in H. inversion H; subst.
    split; [constructor | left; split; [reflexivity | lia]]. }
  cbn [run_loop] in H; unfold bind, get_state, ret in H; cbn beta iota in H.
  unfold code_len in *.
  destruct (Z.ltb_spec (pc s) (Z.of_nat (length (code_memory s)))).
  - destruct (step s) as [[e|[t|]] s1] eqn:Hs.
    + inversion H; subst. pose proof (step_inl _ _ _ Hs) as ->.
      split; [constructor|]. right. exists e. auto.
    + pose proof (step_Some_progress _ _ _ Hs) as [Hc Hp].
      destruct (IH s1) as [Hst Hr]; [rewrite Hc; lia | exact H |].
      split; [econstructor; eauto | exact Hr].
    + apply step_None in Hs. lia.
  - inversion H; subst. split; [constructor | left; split; [reflexivity | lia]].
Qed.

Lemma run_outcome s r s' :
  run s = (r, s') ->
  steps s s' /\
  ((r = inr tt /\ code_len s' <= pc s') \/
   (exists e, r = inl e /\ pc s' < code_len s' /\ step s' = (inl e, s'))).
Proof. rewrite run_unfold. apply run_loop_outcome. lia. Qed.

Lemma steps_data_length a b :
  steps a b -> length (data_memory b) = length (data_memory a).
Proof.
  induction 1 as [s|s t s' s'' Hs _ IH]; [reflexivity|].
  rewrite IH. eapply step_data_length; eauto.
Qed.

(** X1. A [LOAD_CONST] step ([execute_load_const]) at an address inside the data memory stores the constant there and advances [pc] by 6; at an address at or past its end it raises [IndexError] and leaves the machine unchanged. *)
Theorem load_const_step_semantics vm constant address :
  pc vm < code_len vm -> read_bits vm 0 7 = 111 ->
  read_bits vm 7 11 = constant -> read_bits vm 18 26 = address ->
  (address < Z.of_nat (length (data_memory vm)) ->
   step vm = (inr (Some (TLoadConst address constant)),
              mkVM (<[Z.to_nat address := constant]> (data_memory vm))
                   (code_memory vm) (pc vm + 6))) /\
  (Z.of_nat (length (data_memory vm)) <= address -> step vm = (inl IndexError, vm)).
Proof.
  intros Hpc Hop H1 H2. pose proof (read_bits_range vm 18 26) as R.
  unfold code_len in Hpc.
  unfold step, execute_load_const, bind, get_state, read_bits_m, ret, raise, mem_set, pc_add.
  cbn beta iota zeta.
  destruct (Z.leb_spec (Z.of_nat (length (code_memory vm))) (pc vm)); [lia|].
  rewrite Hop. cbn [Z.eqb Pos.eqb]. rewrite H1, H2. split; intros Ha.
  - rewrite py_set_in by lia. reflexivity.
  - rewrite py_set_out by lia. reflexivity.
Qed.

(** X2. A [READ_MEM] step ([execute_read_mem]) whose source, effective and destination addresses lie in the data memory copies [m[m[src] + offset]] into [m[dst]] and advances [pc] by 9. *)
Theorem read_mem_step_semantics vm offset src_addr dst_addr effective_addr value :
  pc vm < code_len vm -> read_bits vm 0 7 = 40 ->
  read_bits vm 7 8 = offset -> read_bits vm 15 26 = src_addr ->
  read_bits vm 41 26 = dst_addr ->
  effective_addr = mem_at (data_memory vm) src_addr + offset ->
  value = mem_at (data_memory vm) effective_addr ->
  src_addr < Z.of_nat (length (data_memory vm)) ->
  0 <= effective_addr < Z.of_nat (length (data_memory vm)) ->
  dst_addr < Z.of_nat (length (data_memory vm)) ->
  step vm =
    (inr (Some (TReadMem dst_addr src_addr offset effective_addr value)),
     mkVM (<[Z.to_nat dst_addr := value]> (data_memory vm)) (code_memory vm) (pc vm + 9)).
Proof.
  intros Hpc Hop H1 H2 H3 He Hv Hs Hea Hd.
  pose proof (read_bits_range vm 15 26) as R1.
  pose proof (read_bits_range vm 41 26) as R2.
  unfold code_len in Hpc.
  unfold step, execute_read_mem, bind, get_state, read_bits_m, ret, raise,
    mem_get, mem_set, pc_add.
  cbn beta iota zeta.
  destruct (Z.leb_spec (Z.of_nat (length (code_memory vm))) (pc vm)); [lia|].
  rewrite Hop. cbn [Z.eqb Pos.eqb]. rewrite H1, H2, H3.
  rewrite (py_get_in _ src_addr) by lia. cbn beta iota. rewrite <- He.
  rewrite (py_get_in _ effective_addr) by lia. cbn beta iota. rewrite <- Hv.
  rewrite py_set_in by lia. reflexivity.
Qed.

(** X3. A [WRITE_MEM] step ([execute_write_mem]) whose addresses lie in the data memory copies [m[src]] into [m[dst]] and advances [pc] by 8. *)
Theorem write_mem_step_semantics vm src_addr dst_addr value :
  pc vm < code_len vm -> read_bits vm 0 7 = 101 ->
  read_bits vm 7 26 = src_addr -> read_bits vm 33 26 = dst_addr ->
  value = mem_at (data_memory vm) src_addr ->
  src_addr < Z.of_nat (length (data_memory vm)) ->
  dst_addr < Z.of_nat (length (data_memory vm)) ->
  step vm =
    (inr (Some (TWriteMem dst_addr src_addr value)),
     mkVM (<[Z.to_nat dst_addr := value]> (data_memory vm)) (code_memory vm) (pc vm + 8)).
Proof.
  intros Hpc Hop H1 H2 Hv Hs Hd.
  pose proof (read_bits_range vm 7 26) as R1.
  pose proof (read_bits_range vm 33 26) as R2.
  unfold code_len in Hpc.
  unfold step, execute_write_mem, bind, get_state, read_bits_m, ret, raise,
    mem_get, mem_set, pc_add.
  cbn beta iota zeta.
  destruct (Z.leb_spec (Z.of_nat (length (code_memory vm))) (pc vm)); [lia|].
  rewrite Hop. cbn [Z.eqb Pos.eqb]. rewrite H1, H2.
  rewrite (py_get_in _ src_addr) by lia. cbn beta iota. rewrite <- Hv.
  rewrite py_set_in by lia. reflexivity.
Qed.

(** X4. A step that raises leaves the machine unchanged and happens only before the end of the code: either an [IndexError] from one of the four known opcodes, or the unknown-opcode [ValueError] carrying the opcode and [pc]. *)
Theorem step_error_cases vm e vm' :
  step vm = (inl e, vm') ->
  vm' = vm /\ pc vm < code_len vm /\
  ((e = IndexError /\
    (read_bits vm 0 7 = 111 \/ read_bits vm 0 7 = 40 \/
     read_bits vm 0 7 = 101 \/ read_bits vm 0 7 = 68)) \/
   (e = ValueError (UnknownOpcodeMsg (read_bits vm 0 7) (pc vm)) /\
    read_bits vm 0 7 <> 111 /\ read_bits vm 0 7 <> 40 /\
    read_bits vm 0 7 <> 101 /\ read_bits vm 0 7 <> 68)).
Proof. apply step_error. Qed.

(** X5. [run] performs a sequence of successful steps and then either stops with [pc] at or past the end of the code, or stops on the exception raised by the step at the machine it reached, which is left as it was. *)
Theorem run_is_steps_then_stop vm r vm' :
  run vm = (r, vm') ->
  steps vm vm' /\
  ((r = inr tt /\ code_len vm' <= pc vm') \/
   (exists e, r = inl e /\ pc vm' < code_len vm' /\ step vm' = (inl e, vm'))).
Proof. apply run_outcome. Qed.

(** X6. [run] never changes the number of data-memory cells nor the code memory. *)
Theorem run_keeps_memory_size vm r vm' :
  run vm = (r, vm') ->
  length (data_memory vm') = length (data_memory vm) /\ code_memory vm' = code_memory vm.
Proof.
  intros H. apply run_outcome in H as [Hs _]. split.
  - eapply steps_data_length; eauto.
  - apply steps_pc in Hs as [_ Hc]. exact Hc.
Qed.

(* ------------------------------------------------------------------ *)
(** ** Assembled programs on the machine *)

(** X7. [to_binary] of a concatenation of instruction lists is the concatenation of the two binaries, and the first error met otherwise. *)
Theorem to_binary_concat (l1 l2 : list Instruction) :
  to_binary (l1 ++ l2) =
    match to_binary l1 with
    | inl e => inl e
    | inr b1 => match to_binary l2 with
                | inl e => inl e
                | inr b2 => inr (b1 ++ b2)
                end
    end.
Proof.
  induction l1 as [|i l1 IH]; simpl.
  - destruct (to_binary l2); reflexivity.
  - destruct (to_bytes i); [reflexivity|].
    rewrite IH. destruct (to_binary l1); [reflexivity|].
    destruct (to_binary l2); [reflexivity|].
    rewrite app_assoc. reflexivity.
Qed.

Lemma encoded_fields i enc mem pre post :
  operands_fit i -> to_bytes i = inr enc ->
  Forall byte_ok pre -> Forall byte_ok post ->
  read_fields (mkVM mem (pre ++ enc ++ post) (Z.of_nat (length pre))) i = field_values i.
Proof.
  intros Hfit He Hpre Hpost. unfold to_bytes in He.
  destruct i; cbn [read_fields field_layout field_values map opcode];
    cbn [operands_fit] in Hfit;
    repeat f_equal; apply Z.bits_inj'; intros j Hj;
    (rewrite (read_bits_encoded _ _ _ _ _ _ _ _ j He Hpre Hpost);
     [| lia | lia | simpl; lia | lia]);
    cbn [packed_value opcode];
    assert (0 <= 111 < 2 ^ 7) by lia; assert (0 <= 40 < 2 ^ 7) by lia;
    assert (0 <= 101 < 2 ^ 7) by lia; assert (0 <= 68 < 2 ^ 7) by lia;
    repeat match goal with H : (0 <= _ < _) /\ _ |- _ => destruct H end;
    field_bits.
Qed.

Lemma sum_list_app' (l1 l2 : list nat) : sum_list (l1 ++ l2) = (sum_list l1 + sum_list l2)%nat.
Proof. induction l1 as [|x l1 IH]; simpl; lia. Qed.

Lemma instr_offset_S instrs k i :
  instrs !! k = Some i ->
  instr_offset instrs (S k) = instr_offset instrs k + Z.of_nat (byte_count i).
Proof.
  intros Hk. unfold instr_offset. rewrite (take_S_r _ _ _ Hk), fmap_app, sum_list_app'.
  simpl. lia.
Qed.

Lemma instr_offset_cons i rest k :
  instr_offset (i :: rest) (S k) = Z.of_nat (byte_count i) + instr_offset rest k.
Proof. unfold instr_offset. simpl. rewrite Nat2Z.inj_add. reflexivity. Qed.

Lemma instr_offset_mono instrs k k' :
  (k <= k')%nat -> instr_offset instrs k <= instr_offset instrs k'.
Proof.
  revert k k'. induction instrs as [|i rest IH]; intros k k' Hk.
  - unfold instr_offset. rewrite !take_nil. reflexivity.
  - destruct k as [|k]; [unfold instr_offset at 1; simpl; unfold instr_offset; lia|].
    destruct k' as [|k']; [lia|]. rewrite !instr_offset_cons. specialize (IH k k'). lia.
Qed.

Lemma instr_offset_total instrs k :
  (length instrs <= k)%nat ->
  instr_offset instrs k = Z.of_nat (sum_list (byte_count <$> instrs)).
Proof. intros Hk. unfold instr_offset. rewrite take_ge by lia. reflexivity. Qed.

Lemma instr_offset_lt instrs k :
  (k < length instrs)%nat ->
  instr_offset instrs k + 6 <= Z.of_nat (sum_list (byte_count <$> instrs)).
Proof.
  intros Hk. destruct (lookup_lt_is_Some_2 _ _ Hk) as [i Hi].
  rewrite <- (instr_offset_total instrs (length instrs)) by lia.
  pose proof (instr_offset_mono instrs (S k) (length instrs)) as M.
  rewrite (instr_offset_S _ _ _ Hi) in M. destruct i; simpl in M; lia.
Qed.

Lemma to_binary_layout instrs :
  Forall operands_fit instrs ->
  exists bin, to_binary instrs = inr bin /\ Forall byte_ok bin /\
    length bin = sum_list (byte_count <$> instrs) /\
    forall k i, instrs !! k = Some i ->
      exists pre enc post, bin = pre ++ enc ++ post /\ to_bytes i = inr enc /\
        Forall byte_ok pre /\ Forall byte_ok post /\
        Z.of_nat (length pre) = instr_offset instrs k.
Proof.
  induction 1 as [|i rest Hi Hrest IH].
  - exists []. split; [reflexivity|]. split; [constructor|]. split; [reflexivity|].
    intros k i Hk. rewrite lookup_nil in Hk. discriminate.
  - destruct (to_bytes_fit i Hi) as (enc & He & Hl).
    destruct IH as (bin & Hb & Hok & Hlen & Hlay).
    pose proof He as He'. unfold to_bytes in He'. apply int_to_bytes_byte_ok in He'.
    exists (enc ++ bin). split; [simpl; rewrite He, Hb; reflexivity|].
    split; [apply Forall_app; auto|].
    split; [rewrite length_app, Hlen, Hl; reflexivity|].
    intros [|k] j Hk.
    + simpl in Hk. inversion Hk; subst. exists [], enc, bin. auto 6.
    + simpl in Hk. destruct (Hlay k j Hk) as (pre & enc' & post & -> & He2 & Hp & Hq & Hpl).
      exists (enc ++ pre), enc', post. rewrite <- app_assoc.
      split; [reflexivity|]. split; [exact He2|]. split; [apply Forall_app; auto|].
      split; [exact Hq|]. rewrite length_app, instr_offset_cons, Hl. lia.
Qed.

Lemma read_fields_vm s i :
  read_fields s i = read_fields (mkVM (data_memory s) (code_memory s) (pc s)) i.
Proof. destruct s; reflexivity. Qed.

Lemma boundary_fields instrs bin s k i :
  Forall operands_fit instrs -> to_binary instrs = inr bin ->
  code_memory s = bin -> pc s = instr_offset instrs k -> instrs !! k = Some i ->
  read_fields s i = field_values i.
Proof.
  intros Hfit Hb Hc Hp Hk. destruct (to_binary_layout _ Hfit) as (bin' & Hb' & _ & _ & Hlay).
  rewrite Hb in Hb'. inversion Hb'; subst bin'.
  destruct (Hlay k i Hk) as (pre & enc & post & Hbin & He & Hpre & Hpost & Hpl).
  rewrite read_fields_vm, Hc, Hp, <- Hpl, Hbin.
  eapply encoded_fields; eauto. eapply Forall_lookup_1; eauto.
Qed.

Lemma boundary_opcode instrs bin s k i :
  Forall operands_fit instrs -> to_binary instrs = inr bin ->
  code_memory s = bin -> pc s = instr_offset instrs k -> instrs !! k = Some i ->
  read_bits s 0 7 = opcode i.
Proof.
  intros Hfit Hb Hc Hp Hk. pose proof (boundary_fields _ _ _ _ _ Hfit Hb Hc Hp Hk) as F.
  destruct i; simpl in F; inversion F; auto.
Qed.

Lemma to_binary_length instrs bin :
  Forall operands_fit instrs -> to_binary instrs = inr bin ->
  length bin = sum_list (byte_count <$> instrs).
Proof.
  intros Hfit Hb. destruct (to_binary_layout _ Hfit) as (bin' & Hb' & _ & Hl & _).
  congruence.
Qed.

Lemma assembled_steps instrs bin s0 s :
  Forall operands_fit instrs -> to_binary instrs = inr bin ->
  code_memory s0 = bin -> pc s0 = 0 -> steps s0 s ->
  code_memory s = bin /\ exists k, (k <= length instrs)%nat /\ pc s = instr_offset instrs k.
Proof.
  intros Hfit Hb Hc0 Hp0 Hs.
  pose proof (to_binary_length _ _ Hfit Hb) as Hlen.
  assert (H : code_memory s0 = bin /\
              exists k, (k <= length instrs)%nat /\ pc s0 = instr_offset instrs k).
  { split; [exact Hc0|]. exists 0%nat. split; [lia | rewrite Hp0; reflexivity]. }
  clear Hc0 Hp0. induction Hs as [s|s t s' s'' Hst Hs IH]; [exact H|].
  apply IH. destruct H as [Hc (k & Hk & Hp)].
  pose proof (step_Some _ _ _ Hst) as [Hlt _].
  destruct (decide (k = length instrs)) as [->|Hne].
  { rewrite Hp, instr_offset_total, <- Hlen, <- Hc in Hlt by lia. lia. }
  destruct (lookup_lt_is_Some_2 instrs k) as [i Hi]; [lia|].
  pose proof (boundary_opcode _ _ _ _ _ Hfit Hb Hc Hp Hi) as Hop.
  apply step_Some_pc in Hst as [Hc' Hpc'].
  split; [congruence|]. exists (S k). split; [lia|].
  rewrite (instr_offset_S _ _ _ Hi).
  destruct i; simpl in Hop; simpl; lia.
Qed.

(** X8. Running the binary of a list of fitting instructions on any machine ends with the binary as the code memory, and either with [pc] at the end of the binary, or on an [IndexError] at the start of one of the instructions, whose fields the machine reads back unchanged. *)
Theorem run_assembled_program instrs bin vm r vm' :
  Forall operands_fit instrs -> to_binary instrs = inr bin ->
  run (load_program vm bin) = (r, vm') ->
  code_memory vm' = bin /\
  ((r = inr tt /\ pc vm' = Z.of_nat (length bin)) \/
   (r = inl IndexError /\
    exists k i, instrs !! k = Some i /\ pc vm' = instr_offset instrs k /\
      read_fields vm' i = field_values i)).
Proof.
  intros Hfit Hb Hrun.
  pose proof (to_binary_length _ _ Hfit Hb) as Hlen.
  apply run_outcome in Hrun as [Hs Hr].
  destruct (assembled_steps _ _ _ _ Hfit Hb (eq_refl : code_memory (load_program vm bin) = bin)
                     (eq_refl : pc (load_program vm bin) = 0) Hs) as [Hc (k & Hk & Hp)].
  split; [exact Hc|]. unfold code_len in Hr. rewrite Hc in Hr.
  destruct (decide (k = length instrs)) as [->|Hne].
  - rewrite instr_offset_total, <- Hlen in Hp by lia.
    destruct Hr as [[-> _]|(e & _ & Hlt & _)]; [left; auto | lia].
  - destruct (lookup_lt_is_Some_2 instrs k) as [i Hi]; [lia|].
    pose proof (instr_offset_lt instrs k) as Hlt. 
    destruct Hr as [[-> Hge]|(e & -> & _ & Hse)]; [lia|].
    right. pose proof (boundary_opcode _ _ _ _ _ Hfit Hb Hc Hp Hi) as Hop.
    apply step_error in Hse as (_ & _ & [[-> _]|(_ & H1 & H2 & H3 & H4)]).
    + split; [reflexivity|]. exists k, i. split; [exact Hi|]. split; [exact Hp|].
      eapply boundary_fields; eauto.
    + destruct i; simpl in Hop; congruence.
Qed.

(** X9. A list of instructions whose operands fit their fields has a binary of the summed byte counts, and at the offset of each instruction the interpreter's [read_bits] reads back the opcode and operands of that instruction. *)
Theorem to_binary_decodes instrs :
  Forall operands_fit instrs ->
  exists bin, to_binary instrs = inr bin /\
    length bin = sum_list (byte_count <$> instrs) /\
    forall k i mem, instrs !! k = Some i ->
      read_fields (mkVM mem bin (instr_offset instrs k)) i = field_values i.
Proof.
  intros Hfit. destruct (to_binary_layout _ Hfit) as (bin & Hb & _ & Hl & _).
  exists bin. split; [exact Hb|]. split; [exact Hl|].
  intros k i mem Hk. eapply boundary_fields; eauto.
Qed.

(* ------------------------------------------------------------------ *)
(** ** String lemmas for [parse_line] *)

Lemma str_app_assoc (a b c : string) : ((a ++ b) ++ c)%string = (a ++ (b ++ c))%string.
Proof. induction a as [|x a IH]; simpl; [reflexivity | rewrite IH; reflexivity]. Qed.

Lemma str_app_nil (a : string) : (a ++ "")%string = a.
Proof. induction a as [|x a IH]; simpl; [reflexivity | rewrite IH; reflexivity]. Qed.

Lemma str_all_app p a b : str_all p (a ++ b) = str_all p a && str_all p b.
Proof. induction a as [|x a IH]; simpl; [reflexivity | rewrite IH, andb_assoc; reflexivity]. Qed.

Lemma str_all_impl (p q : ascii -> bool) s :
  (forall c, p c = true -> q c = true) -> str_all p s = true -> str_all q s = true.
Proof.
  intros Hpq. induction s as [|c s IH]; simpl; [reflexivity|].
  intros H. apply andb_true_iff in H as [H1 H2]. rewrite Hpq, IH; auto.
Qed.

(** Characters *)



Lemma py_upper_empty s : py_upper s = EmptyString -> s = EmptyString.
Proof. destruct s; simpl; congruence. Qed.

(** Stripping *)
Lemma lstrip_tok c r : tok_char c = true -> lstrip (String c r) = String c r.
Proof.
  unfold tok_char. intros H. apply andb_true_iff in H as [H _]. simpl.
  destruct (is_space c); [discriminate | reflexivity].
Qed.

Lemma rstrip_app_tok w t :
  str_all tok_char w = true -> rstrip (w ++ t) = (w ++ rstrip t)%string.
Proof.
  induction w as [|c w IH]; intros H; [reflexivity|].
  simpl in H. apply andb_true_iff in H as [Hc Hw].
  unfold tok_char in Hc. apply andb_true_iff in Hc as [Hc _].
  simpl. rewrite IH by exact Hw. destruct (is_space c); [discriminate|]. reflexivity.
Qed.

Lemma rstrip_tok w : str_all tok_char w = true -> rstrip w = w.
Proof.
  intros H. rewrite <- (str_app_nil w) at 1. rewrite rstrip_app_tok by exact H.
  apply str_app_nil.
Qed.

Lemma rstrip_words ws :
  Forall (fun w => token_ok w = true) ws -> rstrip (words_text ws) = words_text ws.
Proof.
  induction 1 as [|w ws Hw Hws IH]; [reflexivity|].
  unfold token_ok in Hw. apply andb_true_iff in Hw as [Hne Hw].
  simpl. rewrite rstrip_app_tok, IH by exact Hw.
  destruct w as [|c w]; [discriminate|]. reflexivity.
Qed.

Lemma lstrip_all_space s : str_all is_space s = true -> lstrip s = EmptyString.
Proof.
  induction s as [|c s IH]; simpl; [reflexivity|].
  intros H. apply andb_true_iff in H as [H1 H2]. rewrite H1. auto.
Qed.

(** Comments *)
Lemma strip_comment_cons d x :
  Ascii.eqb d "#" = false ->
  strip_comment (String d x) = String d (strip_comment x).
Proof.
  intros Hd. unfold strip_comment. simpl. rewrite Hd.
  destruct (str_index "#" x); reflexivity.
Qed.

Lemma strip_comment_hash x : strip_comment (String "#" x) = EmptyString.
Proof. reflexivity. Qed.

Lemma strip_comment_app l c :
  strip_comment (l ++ String "#" c) = strip_comment l.
Proof.
  induction l as [|d l IH]; [reflexivity|]. simpl.
  destruct (Ascii.eqb_spec d "#") as [->|Hd].
  - rewrite !strip_comment_hash. reflexivity.
  - rewrite !strip_comment_cons by (apply Ascii.eqb_neq; exact Hd). rewrite IH. reflexivity.
Qed.

Lemma strip_comment_idem l : strip_comment (strip_comment l) = strip_comment l.
Proof.
  induction l as [|d l IH]; [reflexivity|].
  destruct (Ascii.eqb_spec d "#") as [->|Hd].
  - rewrite strip_comment_hash. reflexivity.
  - rewrite !strip_comment_cons by (apply Ascii.eqb_neq; exact Hd). rewrite IH. reflexivity.
Qed.

Lemma strip_comment_tok s : str_all tok_char s = true -> strip_comment s = s.
Proof.
  induction s as [|d s IH]; [reflexivity|]. simpl. intros H.
  apply andb_true_iff in H as [Hd Hs]. unfold tok_char in Hd.
  apply andb_true_iff in Hd as [_ Hd]. apply negb_true_iff in Hd.
  rewrite strip_comment_cons by exact Hd. rewrite IH; auto.
Qed.

Lemma str_all_words ws :
  Forall (fun w => token_ok w = true) ws ->
  str_all (fun c => tok_char c || Ascii.eqb c " ") (words_text ws) = true.
Proof.
  induction 1 as [|w ws Hw Hws IH]; [reflexivity|]. simpl.
  rewrite str_all_app, IH. unfold token_ok in Hw. apply andb_true_iff in Hw as [_ Hw].
  rewrite (str_all_impl _ _ _ (fun c H => orb_true_intro _ _ (or_introl H)) Hw).
  reflexivity.
Qed.

Lemma strip_comment_words s :
  str_all (fun c => tok_char c || Ascii.eqb c " ") s = true -> strip_comment s = s.
Proof.
  induction s as [|d s IH]; [reflexivity|]. simpl. intros H.
  apply andb_true_iff in H as [Hd Hs].
  rewrite strip_comment_cons; [rewrite IH; auto|].
  destruct (Ascii.eqb_spec d "#") as [->|Hne]; [vm_compute in Hd; discriminate | reflexivity].
Qed.

(** Splitting on whitespace *)
Lemma split_ws_tok w s word :
  str_all tok_char w = true -> split_ws_go (w ++ s) word = split_ws_go s (word ++ w).
Proof.
  revert word. induction w as [|c w IH]; intros word H.
  - simpl. rewrite str_app_nil. reflexivity.
  - simpl in H. apply andb_true_iff in H as [Hc Hw].
    unfold tok_char in Hc. apply andb_true_iff in Hc as [Hc _]. apply negb_true_iff in Hc.
    simpl. rewrite Hc, IH by exact Hw. rewrite str_app_assoc. reflexivity.
Qed.

Lemma split_ws_words ws word :
  Forall (fun w => token_ok w = true) ws -> word <> EmptyString ->
  split_ws_go (words_text ws) word = word :: ws.
Proof.
  intros Hws. revert word. induction Hws as [|w ws Hw Hws IH]; intros word Hword.
  - simpl. destruct (String.eqb_spec word ""); [congruence | reflexivity].
  - simpl. destruct (String.eqb_spec word ""); [congruence|].
    unfold token_ok in Hw. apply andb_true_iff in Hw as [Hne Hw].
    rewrite split_ws_tok by exact Hw. rewrite IH; [reflexivity|].
    simpl. destruct w; [discriminate | discriminate].
Qed.

(** [parse_line] on a line of tokens separated by single spaces *)
Lemma parse_line_words w ws :
  token_ok w = true -> Forall (fun v => token_ok v = true) ws ->
  parse_line (w ++ words_text ws) =
    match parse_body (py_upper w) ws with
    | inr i => inr (Some i)
    | inl (TryValueError msg) => inl (LineError (w ++ words_text ws) msg)
    | inl (TryOther e) => inl (AsmOther e)
    end.
Proof.
  intros Hw Hws. pose proof Hw as Hw'.
  unfold token_ok in Hw'. apply andb_true_iff in Hw' as [Hne Hall].
  destruct w as [|c w]; [discriminate|].
  unfold parse_line.
  rewrite strip_comment_words.
  2: { rewrite str_all_app, str_all_words by exact Hws.
       rewrite (str_all_impl _ _ _ (fun c H => orb_true_intro _ _ (or_introl H)) Hall).
       reflexivity. }
  unfold py_strip. simpl in Hall. apply andb_true_iff in Hall as [Hc Hall'].
  assert (Hs : rstrip (lstrip (String c w ++ words_text ws)) = (String c w ++ words_text ws)%string).
  { cbn [append]. rewrite lstrip_tok by exact Hc.
    change (String c (w ++ words_text ws)) with ((String c w) ++ words_text ws)%string.
    rewrite rstrip_app_tok by (simpl; rewrite Hc; exact Hall').
    rewrite rstrip_words by exact Hws. reflexivity. }
  rewrite Hs. unfold py_split. rewrite split_ws_tok by (simpl; rewrite Hc; exact Hall').
  rewrite split_ws_words by (auto || discriminate). reflexivity.
Qed.

(* ------------------------------------------------------------------ *)
(** ** Decimal literals read back by [int] *)

Lemma digit_char_spec d :
  0 <= d <= 9 ->
  is_digit (digit_char d) = true /\ digit_value (digit_char d) = d /\
  tok_char (digit_char d) = true /\ Ascii.eqb (digit_char d) "-" = false /\
  Ascii.eqb (digit_char d) "+" = false.
Proof.
  intros Hd.
  assert (d = 0 \/ d = 1 \/ d = 2 \/ d = 3 \/ d = 4 \/ d = 5 \/ d = 6 \/ d = 7 \/
          d = 8 \/ d = 9) as Hc by lia.
  repeat destruct Hc as [->|Hc]; subst.
  all: vm_compute; repeat split.
Qed.

Lemma int_digits_go_digits ds acc n :
  Forall (fun d => 0 <= d <= 9) ds ->
  int_digits_go (string_of_digits ds) acc n =
    Some (fold_left (fun a d => 10 * a + d) ds acc, (n + length ds)%nat).
Proof.
  intros Hds. revert acc n. induction Hds as [|d ds Hd Hds IH]; intros acc n.
  - simpl. rewrite Nat.add_0_r. reflexivity.
  - destruct (digit_char_spec d Hd) as (H1 & H2 & _).
    change (string_of_digits (d :: ds)) with (String (digit_char d) (string_of_digits ds)).
    cbn [int_digits_go]. rewrite H1, H2, IH. cbn [fold_left length]. do 2 f_equal. lia.
Qed.

Lemma pow_succ_2 f : 2 ^ (Z.of_nat (S f) + 1) = 2 * 2 ^ (Z.of_nat f + 1).
Proof. rewrite Nat2Z.inj_succ, <- Z.add_1_r, (Z.pow_add_r 2 (Z.of_nat f + 1) 1) by lia. lia. Qed.

Lemma dec_digits_spec f m :
  0 <= m < 2 ^ (Z.of_nat f + 1) ->
  dec_digits f m <> [] /\ Forall (fun d => 0 <= d <= 9) (dec_digits f m) /\
  fold_left (fun a d => 10 * a + d) (dec_digits f m) 0 = m /\
  (forall k : nat, (1 <= k)%nat -> m < 10 ^ Z.of_nat k -> (length (dec_digits f m) <= k)%nat).
Proof.
  revert m. induction f as [|f IH]; intros m Hm.
  - cbn [dec_digits]. cbn [Z.of_nat] in Hm.
    split; [discriminate|]. split; [constructor; [lia | constructor]|].
    split; [reflexivity|]. intros k Hk _. simpl. lia.
  - cbn [dec_digits]. destruct (Z.ltb_spec m 10).
    + split; [discriminate|]. split; [constructor; [lia | constructor]|].
      split; [reflexivity|]. intros k Hk _. simpl. lia.
    + rewrite pow_succ_2 in Hm. remember (2 ^ (Z.of_nat f + 1)) as T eqn:HT.
      destruct (IH (m / 10)) as (Hne & Hd & Hv & Hl); [subst T; Z.div_mod_to_equations; lia|].
      split; [intros Hc; apply (f_equal length) in Hc; rewrite length_app in Hc; simpl in Hc; lia|].
      split.
      { apply Forall_app; split; [exact Hd|].
        constructor; [|constructor]. Z.div_mod_to_equations; lia. }
      split.
      { rewrite fold_left_app, Hv. cbn [fold_left]. Z.div_mod_to_equations; lia. }
      intros k Hk Hmk. rewrite length_app. cbn [length].
      destruct k as [|[|k]]; [lia | cbn in Hmk; lia|].
      assert (E : 10 ^ Z.of_nat (S (S k)) = 10 * 10 ^ Z.of_nat (S k)).
      { rewrite (Nat2Z.inj_succ (S k)), Z.pow_succ_r by lia. lia. }
      rewrite E in Hmk. remember (10 ^ Z.of_nat (S k)) as P eqn:HP.
      assert (Hq : m / 10 < P) by (Z.div_mod_to_equations; lia).
      rewrite HP in Hq. specialize (Hl (S k) ltac:(lia) Hq). lia.
Qed.

Lemma decimal_digits x :
  let m := Z.abs x in
  let ds := dec_digits (Z.to_nat (Z.log2 m)) m in
  ds <> [] /\ Forall (fun d => 0 <= d <= 9) ds /\
  fold_left (fun a d => 10 * a + d) ds 0 = m /\
  (forall k : nat, (1 <= k)%nat -> m < 10 ^ Z.of_nat k -> (length ds <= k)%nat).
Proof.
  intros m ds. apply dec_digits_spec.
  assert (0 <= m) by (subst m; lia). split; [lia|].
  rewrite Z2Nat.id by apply Z.log2_nonneg.
  destruct (Z.eq_dec m 0) as [->|Hm]; [reflexivity|].
  apply Z.log2_spec. lia.
Qed.

Lemma str_all_digits ds :
  Forall (fun d => 0 <= d <= 9) ds -> str_all tok_char (string_of_digits ds) = true.
Proof.
  induction 1 as [|d ds Hd Hds IH]; [reflexivity|].
  change (string_of_digits (d :: ds)) with (String (digit_char d) (string_of_digits ds)).
  cbn [str_all]. destruct (digit_char_spec d Hd) as (_ & _ & H & _). rewrite H, IH. reflexivity.
Qed.

Lemma py_strip_tok s : str_all tok_char s = true -> py_strip s = s.
Proof.
  intros H. unfold py_strip. destruct s as [|c r]; [reflexivity|].
  pose proof H as H'. cbn [str_all] in H'. apply andb_true_iff in H' as [Hc _].
  rewrite lstrip_tok by exact Hc. apply rstrip_tok, H.
Qed.

Lemma decimal_token x : token_ok (decimal x) = true.
Proof.
  destruct (decimal_digits x) as (Hne & Hd & _). unfold token_ok, decimal.
  pose proof (str_all_digits _ Hd) as Ha.
  destruct (dec_digits (Z.to_nat (Z.log2 (Z.abs x))) (Z.abs x)) as [|d ds];
    [congruence|].
  change (string_of_digits (d :: ds)) with (String (digit_char d) (string_of_digits ds)) in *.
  destruct (x <? 0).
  - change (true && (tok_char "-" && str_all tok_char (String (digit_char d) (string_of_digits ds))) = true).
    rewrite Ha. reflexivity.
  - change (true && str_all tok_char (String (digit_char d) (string_of_digits ds)) = true).
    rewrite Ha. reflexivity.
Qed.

Lemma py_int_decimal x : Z.abs x < 10 ^ 4300 -> py_int (decimal x) = Some x.
Proof.
  intros Hx. destruct (decimal_digits x) as (Hne & Hd & Hv & Hl).
  specialize (Hl 4300%nat ltac:(lia)). replace (Z.of_nat 4300) with 4300 in Hl by reflexivity.
  specialize (Hl Hx). clear Hx.
  pose proof (decimal_token x) as Ht. unfold token_ok in Ht.
  apply andb_true_iff in Ht as [_ Ht].
  unfold py_int. rewrite py_strip_tok by exact Ht.
  unfold decimal in *.
  destruct (dec_digits (Z.to_nat (Z.log2 (Z.abs x))) (Z.abs x)) as [|d ds] eqn:E;
    [congruence|].
  inversion Hd as [|? ? Hd0 Hds]; subst.
  destruct (digit_char_spec d Hd0) as (H1 & H2 & _ & H4 & H5).
  change (string_of_digits (d :: ds)) with (String (digit_char d) (string_of_digits ds)).
  assert (Hgo : int_digits (String (digit_char d) (string_of_digits ds)) =
                Some (Z.abs x, (1 + length ds)%nat)).
  { unfold int_digits. rewrite H1, H2, int_digits_go_digits by exact Hds.
    rewrite <- Hv. reflexivity. }
  cbn [length] in Hl.
  destruct (Z.ltb_spec x 0).
  - cbv beta iota zeta. change (Ascii.eqb "-" "-") with true. cbv beta iota.
    rewrite Hgo. cbv beta iota.
    destruct (Nat.ltb_spec max_str_digits (1 + length ds)); [unfold max_str_digits in *; lia|].
    f_equal. lia.
  - cbv beta iota zeta. rewrite H4, H5. cbv beta iota. rewrite Hgo. cbv beta iota.
    destruct (Nat.ltb_spec max_str_digits (1 + length ds)); [unfold max_str_digits in *; lia|].
    f_equal. lia.
Qed.

(* ------------------------------------------------------------------ *)
(** ** [Assembler.parse_line] *)

Lemma int_call_decimal x : Z.abs x < 10 ^ 4300 -> int_call (decimal x) = inr x.
Proof. intros H. unfold int_call. rewrite py_int_decimal by exact H. reflexivity. Qed.


Lemma decimal_tokens ops : Forall (fun w => token_ok w = true) (decimal <$> ops).
Proof. induction ops as [|x ops IH]; constructor; [apply decimal_token | exact IH]. Qed.


Lemma check_range_ok field x bound : 0 <= x < bound -> check_range field x bound = inr tt.
Proof.
  intros H. unfold check_range.
  destruct (Z.leb_spec 0 x); [|lia]. destruct (Z.ltb_spec x bound); [reflexivity | lia].
Qed.

Lemma construct_fit i : operands_fit i -> construct i = inr i.
Proof.
  destruct i; cbn [operands_fit construct]; intros H;
    unfold LoadConstInstruction, ReadMemInstruction, WriteMemInstruction, GTEInstruction;
    repeat (rewrite check_range_ok by lia; cbn [seq_check]); reflexivity.
Qed.

Lemma pow_bound : 2 ^ 26 <= 10 ^ 4300.
Proof.
  apply Z.le_trans with (10 ^ 26).
  - apply Z.pow_le_mono_l; lia.
  - apply Z.pow_le_mono_r; lia.
Qed.

Lemma fit_small i : operands_fit i -> Forall (fun x => Z.abs x < 10 ^ 4300) (operands i).
Proof.
  pose proof pow_bound as Hb. remember (10 ^ 4300) as B eqn:HB. clear HB.
  destruct i; cbn [operands_fit operands]; intros H;
    repeat constructor; lia.
Qed.

Lemma ctor_call_ok r i : ctor_call r = inr i -> r = inr i.
Proof. destruct r as [[]|]; simpl; congruence. Qed.

Lemma parse_body_fit mn args i : parse_body mn args = inr i -> operands_fit i.
Proof.
  unfold parse_body, arg_count_error, try_bind. intros H.
  repeat (case_match; try discriminate).
  all: apply ctor_call_ok in H;
    first [ apply LoadConstInstruction_ok in H | apply ReadMemInstruction_ok in H
          | apply WriteMemInstruction_ok in H | apply GTEInstruction_ok in H ];
    apply H.
Qed.

Lemma parse_line_fit l i : parse_line l = inr (Some i) -> operands_fit i.
Proof.
  unfold parse_line. intros Hp. repeat (case_match; try discriminate).
  inversion Hp; subst. eapply parse_body_fit; eauto.
Qed.

(** X11. On a line of tokens, a known mnemonic with the wrong number of arguments and an unknown mnemonic are reported as a [ValueError] for that line, before any argument is converted. *)
Theorem parse_line_early_errors w ws :
  token_ok w = true -> Forall (fun v => token_ok v = true) ws ->
  (forall i, py_upper w = mnemonic_of i -> length ws <> length (operands i) ->
     parse_line (w ++ words_text ws) =
       inl (LineError (w ++ words_text ws)
              (ArgCountMsg (mnemonic_of i) (length (operands i)) (length ws)))) /\
  ((forall i, py_upper w <> mnemonic_of i) ->
     parse_line (w ++ words_text ws) =
       inl (LineError (w ++ words_text ws) (UnknownMnemonicMsg (py_upper w)))).
Proof.
  intros Hw Hws. rewrite parse_line_words by assumption. split.
  - intros i Hm Hl. rewrite Hm. unfold parse_body, arg_count_error.
    destruct i; cbn [operands length mnemonic_of] in Hl |- *;
      apply Nat.eqb_neq in Hl; rewrite Hl; reflexivity.
  - intros Hne. unfold parse_body.
    destruct (String.eqb_spec (py_upper w) "LOAD_CONST") as [E|_];
      [exfalso; apply (Hne (LoadConst 0 0)); exact E|].
    destruct (String.eqb_spec (py_upper w) "READ_MEM") as [E|_];
      [exfalso; apply (Hne (ReadMem 0 0 0)); exact E|].
    destruct (String.eqb_spec (py_upper w) "WRITE_MEM") as [E|_];
      [exfalso; apply (Hne (WriteMem 0 0)); exact E|].
    destruct (String.eqb_spec (py_upper w) "GTE") as [E|_];
      [exfalso; apply (Hne (GTE 0 0 0 0 0)); exact E|].
    reflexivity.
Qed.

(** X12. Whatever follows a [#] on a line does not change what [parse_line] returns for the text before it. *)
Theorem parse_line_ignores_comment l c :
  parse_line (l ++ String "#" c) = parse_line l.
Proof. unfold parse_line. rewrite strip_comment_app. reflexivity. Qed.

(** X13. A line that is blank once its comment is removed is parsed as [None] (no instruction). *)
Theorem parse_line_blank l :
  str_all is_space (strip_comment l) = true -> parse_line l = inr None.
Proof.
  intros H. unfold parse_line, py_strip. rewrite lstrip_all_space by exact H. reflexivity.
Qed.

(* ------------------------------------------------------------------ *)
(** ** [Assembler.assemble] *)

Lemma split_on_app sep s1 s2 cur :
  split_on_go sep (s1 ++ String sep s2) cur = split_on_go sep s1 cur ++ split_on_go sep s2 EmptyString.
Proof.
  revert cur. induction s1 as [|c s1 IH]; intros cur; simpl.
  - rewrite Ascii.eqb_refl. reflexivity.
  - destruct (Ascii.eqb c sep); [rewrite IH; reflexivity | apply IH].
Qed.

Lemma split_on_none sep s cur :
  str_all (fun c => negb (Ascii.eqb c sep)) s = true -> split_on_go sep s cur = [(cur ++ s)%string].
Proof.
  revert cur. induction s as [|c s IH]; intros cur H; simpl.
  - rewrite str_app_nil. reflexivity.
  - simpl in H. apply andb_true_iff in H as [Hc Hs]. apply negb_true_iff in Hc.
    rewrite Hc, IH by exact Hs. rewrite str_app_assoc. reflexivity.
Qed.


Lemma assemble_go_app l1 l2 acc :
  assemble_go (l1 ++ l2) acc =
    match assemble_go l1 acc with
    | (inl e, st) => (inl e, st)
    | (inr instrs, _) => assemble_go l2 instrs
    end.
Proof.
  revert acc. induction l1 as [|line l1 IH]; intros acc; [reflexivity|].
  simpl. destruct (parse_line line) as [e|[i|]]; [reflexivity | apply IH | apply IH].
Qed.

Lemma assemble_go_state l acc r st :
  assemble_go l acc = (inr r, st) -> st = r.
Proof.
  revert acc. induction l as [|line l IH]; intros acc H; simpl in H.
  - inversion H; reflexivity.
  - destruct (parse_line line) as [e|[i|]]; [discriminate | eapply IH; eauto | eapply IH; eauto].
Qed.

Lemma assemble_go_acc l acc :
  assemble_go l acc =
    match assemble_go l [] with
    | (inl e, st) => (inl e, acc ++ st)
    | (inr instrs, st) => (inr (acc ++ instrs), acc ++ st)
    end.
Proof.
  revert acc. induction l as [|line l IH]; intros acc; simpl.
  - rewrite app_nil_r. reflexivity.
  - destruct (parse_line line) as [e|[i|]].
    + rewrite app_nil_r. reflexivity.
    + rewrite (IH (acc ++ [i])), (IH [i]).
      destruct (assemble_go l []) as [[e|instrs] st]; rewrite <- !app_assoc; reflexivity.
    + apply IH.
Qed.

(** X14. Assembling two sources joined by a newline assembles the first, and on success the second, concatenating their instructions; the instructions kept at an error are those parsed before it. *)
Theorem assemble_concat s1 s2 :
  assemble (s1 ++ String "010" s2) =
    match assemble s1 with
    | (inl e, st) => (inl e, st)
    | (inr instrs1, _) =>
        match assemble s2 with
        | (inl e, st) => (inl e, instrs1 ++ st)
        | (inr instrs2, _) => (inr (instrs1 ++ instrs2), instrs1 ++ instrs2)
        end
    end.
Proof.
  unfold assemble, py_split_on. rewrite split_on_app, assemble_go_app.
  destruct (assemble_go (split_on_go "010" s1 EmptyString) []) as [[e|instrs1] st1];
    [reflexivity|].
  rewrite assemble_go_acc.
  destruct (assemble_go (split_on_go "010" s2 EmptyString) []) as [[e|instrs2] st2] eqn:E;
    [reflexivity|].
  apply assemble_go_state in E as ->. reflexivity.
Qed.

Lemma assemble_go_spec l acc r st :
  assemble_go l acc = (r, st) ->
  exists pre opts, Forall2 (fun line o => parse_line line = inr o) pre opts /\
    st = acc ++ omap (fun o => o) opts /\
    ((pre = l /\ r = inr st) \/
     (exists line post e, l = pre ++ line :: post /\ parse_line line = inl e /\ r = inl e)).
Proof.
  revert acc. induction l as [|line l IH]; intros acc H; simpl in H.
  - inversion H; subst. exists [], []. split; [constructor|].
    split; [rewrite app_nil_r; reflexivity | left; auto].
  - destruct (parse_line line) as [e|o] eqn:Hp.
    + inversion H; subst. exists [], []. split; [constructor|].
      split; [rewrite app_nil_r; reflexivity|].
      right. exists line, l, e. auto.
    + assert (Ho : exists acc', assemble_go l acc' = (r, st) /\
                     acc' = acc ++ omap (fun o => o) [o]).
      { destruct o as [i|]; simpl; [exists (acc ++ [i]) | exists acc];
          (split; [exact H | rewrite ?app_nil_r; reflexivity]). }
      destruct Ho as (acc' & H' & ->).
      destruct (IH _ H') as (pre & opts & Hf & Hst & Hr).
      exists (line :: pre), (o :: opts). split; [constructor; auto|].
      split; [rewrite Hst, <- app_assoc; destruct o; reflexivity|].
      destruct Hr as [[-> ->]|(line' & post & e & -> & Hl & ->)]; [left; auto|].
      right. exists line', post, e. auto.
Qed.

(** X15. [assemble] parses the lines of the source in order: its instruction list is the instructions of the lines parsed before it stopped, and it either parsed every line or stopped with the error of the first failing line. *)
Theorem assemble_result source r st :
  assemble source = (r, st) ->
  exists pre opts,
    Forall2 (fun line o => parse_line line = inr o) pre opts /\
    st = omap (fun o => o) opts /\
    ((pre = py_split_on "010" source /\ r = inr st) \/
     (exists line post e,
        py_split_on "010" source = pre ++ line :: post /\ parse_line line = inl e /\ r = inl e)).
Proof. intros H. apply assemble_go_spec in H. exact H. Qed.

Lemma no_newline_line c : tok_char c || Ascii.eqb c " " = true -> negb (Ascii.eqb c "010") = true.
Proof.
  intros H. destruct (Ascii.eqb_spec c "010") as [->|_]; [vm_compute in H; discriminate | reflexivity].
Qed.

Lemma source_line_no_newline i :
  str_all (fun c => negb (Ascii.eqb c "010")) (source_line (mnemonic_of i) (operands i)) = true.
Proof.
  unfold source_line. rewrite str_all_app. apply andb_true_iff. split.
  - destruct i; reflexivity.
  - eapply str_all_impl; [exact no_newline_line | apply str_all_words, decimal_tokens].
Qed.

Lemma split_join ls :
  ls <> [] -> Forall (fun l => str_all (fun c => negb (Ascii.eqb c "010")) l = true) ls ->
  py_split_on "010" (join_lines ls) = ls.
Proof.
  intros Hne Hall. unfold py_split_on. induction Hall as [|l ls Hl Hls IH]; [congruence|].
  destruct ls as [|l' ls].
  - simpl. rewrite split_on_none by exact Hl. reflexivity.
  - change (join_lines (l :: l' :: ls)) with (l ++ String "010" (join_lines (l' :: ls)))%string.
    rewrite split_on_app, split_on_none by exact Hl. rewrite IH by discriminate. reflexivity.
Qed.

Lemma parse_source_line_fit i :
  operands_fit i -> parse_line (source_line (mnemonic_of i) (operands i)) = inr (Some i).
Proof.
  intros Hfit. unfold source_line.
  rewrite parse_line_words by (destruct i; reflexivity || apply decimal_tokens).
  assert (Hu : py_upper (mnemonic_of i) = mnemonic_of i) by (destruct i; reflexivity).
  pose proof (fit_small i Hfit) as Hops. pose proof (construct_fit i Hfit) as Hc.
  rewrite Hu. unfold parse_body.
  destruct i; cbn [operands construct] in Hops, Hc |- *;
    repeat match goal with H : Forall _ (_ :: _) |- _ => inversion_clear H end;
    rewrite ?fmap_cons, ?fmap_nil;
    cbn [mnemonic_of String.eqb Ascii.eqb Bool.eqb length nth negb Nat.eqb andb];
    unfold try_bind; rewrite ?int_call_decimal by assumption; rewrite Hc; reflexivity.
Qed.

Lemma assemble_go_lines instrs acc :
  Forall operands_fit instrs ->
  assemble_go ((fun i => source_line (mnemonic_of i) (operands i)) <$> instrs) acc =
    (inr (acc ++ instrs), acc ++ instrs).
Proof.
  intros Hfit. revert acc. induction Hfit as [|i instrs Hi Hs IH]; intros acc.
  - simpl. rewrite app_nil_r. reflexivity.
  - rewrite fmap_cons. cbn [assemble_go]. rewrite parse_source_line_fit by exact Hi.
    rewrite IH, <- app_assoc. reflexivity.
Qed.

(** X16. The source text of a list of fitting instructions (one line per instruction, mnemonic and decimal operands) assembles back to that list. *)
Theorem assemble_program_text instrs :
  Forall operands_fit instrs -> assemble (program_text instrs) = (inr instrs, instrs).
Proof.
  intros Hfit. destruct instrs as [|i rest]; [reflexivity|].
  unfold assemble, program_text. rewrite split_join.
  - apply assemble_go_lines, Hfit.
  - rewrite fmap_cons. discriminate.
  - apply Forall_fmap, Forall_forall. intros j _. apply source_line_no_newline.
Qed.

Lemma assemble_go_fit l acc r st :
  Forall operands_fit acc -> assemble_go l acc = (r, st) -> Forall operands_fit st.
Proof.
  revert acc. induction l as [|line l IH]; intros acc Hacc H; simpl in H.
  - inversion H; subst. exact Hacc.
  - destruct (parse_line line) as [e|[i|]] eqn:Hp.
    + inversion H; subst. exact Hacc.
    + eapply IH; [|exact H]. apply Forall_app; split; [exact Hacc|].
      constructor; [eapply parse_line_fit; eauto | constructor].
    + eapply IH; eauto.
Qed.

(** X17. Every instruction list [assemble] returns has operands that fit their fields, so [to_binary] encodes it without error into the summed byte counts. *)
Theorem assemble_output_encodes source instrs st :
  assemble source = (inr instrs, st) ->
  st = instrs /\ Forall operands_fit instrs /\
  exists bin, to_binary instrs = inr bin /\ length bin = sum_list (byte_count <$> instrs).
Proof.
  intros H. pose proof H as H'. apply assemble_go_state in H' as ->.
  assert (Hf : Forall operands_fit instrs) by (eapply assemble_go_fit; [constructor | exact H]).
  split; [reflexivity|]. split; [exact Hf|].
  destruct (to_binary_layout _ Hf) as (bin & Hb & _ & Hl & _). eauto.
Qed.

(* ------------------------------------------------------------------ *)
(** ** [VirtualMachine.dump_memory_xml] *)

Lemma py_get_wrap l a :
  - Z.of_nat (length l) <= a < Z.of_nat (length l) ->
  py_get l a = inr (mem_at l (if a <? 0 then a + Z.of_nat (length l) else a)).
Proof.
  intros Ha. unfold py_get, py_index, mem_at.
  destruct (Z.ltb_spec a 0).
  - destruct (Z.leb_spec 0 (a + Z.of_nat (length l))); [|lia].
    destruct (Z.ltb_spec (a + Z.of_nat (length l)) (Z.of_nat (length l))); [|lia]. reflexivity.
  - destruct (Z.leb_spec 0 a); [|lia].
    destruct (Z.ltb_spec a (Z.of_nat (length l))); [|lia]. reflexivity.
Qed.

Lemma dump_cells_range mem n a :
  - Z.of_nat (length mem) <= a ->
  dump_cells mem (py_range_go a n) =
    inr ((fun addr => (addr, mem_at mem (if addr <? 0 then addr + Z.of_nat (length mem) else addr)))
           <$> py_range_go a (Z.to_nat (Z.min (a + Z.of_nat n) (Z.of_nat (length mem)) - a))).
Proof.
  revert a. induction n as [|n IH]; intros a Ha.
  - replace (Z.to_nat (Z.min (a + Z.of_nat 0) (Z.of_nat (length mem)) - a)) with 0%nat by lia.
    reflexivity.
  - cbn [py_range_go dump_cells]. rewrite (IH (a + 1)) by lia.
    destruct (Z.ltb_spec a (Z.of_nat (length mem))).
    + rewrite py_get_wrap by lia.
      replace (Z.to_nat (Z.min (a + Z.of_nat (S n)) (Z.of_nat (length mem)) - a))
        with (S (Z.to_nat (Z.min (a + 1 + Z.of_nat n) (Z.of_nat (length mem)) - (a + 1)))) by lia.
      reflexivity.
    + replace (Z.to_nat (Z.min (a + Z.of_nat (S n)) (Z.of_nat (length mem)) - a)) with 0%nat by lia.
      replace (Z.to_nat (Z.min (a + 1 + Z.of_nat n) (Z.of_nat (length mem)) - (a + 1))) with 0%nat by lia.
      reflexivity.
Qed.

(** X18. From a start address not below [-len], [dump_memory_xml] lists every address from the start up to the end address or the last cell, in order, a negative address showing the cell Python's index wraps it to. *)
Theorem dump_memory_cells_listing vm start_addr end_addr :
  - Z.of_nat (length (data_memory vm)) <= start_addr ->
  dump_memory_cells vm start_addr end_addr =
    inr ((fun addr => (addr, mem_at (data_memory vm)
                               (if addr <? 0 then addr + Z.of_nat (length (data_memory vm))
                                else addr)))
         <$> py_range start_addr (Z.min (end_addr + 1) (Z.of_nat (length (data_memory vm))))).
Proof.
  intros H. unfold dump_memory_cells, py_range. rewrite dump_cells_range by exact H.
  do 3 f_equal.
  destruct (Z.leb_spec start_addr (end_addr + 1)); lia.
Qed.

(** X19. [dump_memory_xml] over a non-empty range that starts below [-len] raises [IndexError]. *)
Theorem dump_memory_cells_index_error vm start_addr end_addr :
  start_addr < - Z.of_nat (length (data_memory vm)) -> start_addr <= end_addr ->
  dump_memory_cells vm start_addr end_addr = inl IndexError.
Proof.
  intros H1 H2. unfold dump_memory_cells, py_range.
  replace (Z.to_nat (end_addr + 1 - start_addr)) with (S (Z.to_nat (end_addr - start_addr))) by lia.
  cbn [py_range_go dump_cells].
  destruct (Z.ltb_spec start_addr (Z.of_nat (length (data_memory vm)))); [|lia].
  unfold py_get, py_index.
  destruct (Z.ltb_spec start_addr 0); [|lia].
  destruct (Z.leb_spec 0 (start_addr + Z.of_nat (length (data_memory vm)))); [lia|].
  reflexivity.
Qed.


(* ------------------------------------------------------------------ *)
(** ** Examples: the theorems at concrete inputs *)

Ltac concrete := vm_compute; repeat split; first [reflexivity | discriminate | intros ?; discriminate].

(** C1 at a [GTE] instruction with extreme operands *)
Lemma encode_read_fields_roundtrip_witness :
  operands_fit (GTE 255 67108863 0 12345 7) /\
  exists enc, to_bytes (GTE 255 67108863 0 12345 7) = inr enc /\
    forall mem pre post, Forall byte_ok pre -> Forall byte_ok post ->
      read_fields (mkVM mem (pre ++ enc ++ post) (Z.of_nat (length pre)))
        (GTE 255 67108863 0 12345 7)
      = field_values (GTE 255 67108863 0 12345 7).
Proof.
  assert (H : operands_fit (GTE 255 67108863 0 12345 7)) by concrete.
  split; [exact H | exact (encode_read_fields_roundtrip _ H)].
Defined.

(** C2 on [GTE 1 0 5 5 2] over memory [3; 7; 2; 9; 4; 1]: effective address
    [m[0] + 1 = 4], effective result address [m[5] + 2 = 3], operands
    [m[4] = 4] and [m[5] = 1]. *)
Lemma gte_step_semantics_witness :
  step gte_example_vm =
    (inr (Some (TGte 3 4 1 (if 4 >=? 1 then 1 else 0))),
     mkVM (<[Z.to_nat 3 := if 4 >=? 1 then 1 else 0]> (data_memory gte_example_vm))
          (code_memory gte_example_vm) (pc gte_example_vm + 13)).
Proof. apply (gte_step_semantics gte_example_vm 1 0 5 5 2 4 3 4 1); concrete. Defined.

(** C4 on the field [offset2] of that [GTE], bits 93..100 across two bytes *)
Lemma read_bits_extracts_field_witness :
  0 <= read_bits gte_example_vm 93 8 < 2 ^ 8 /\
  forall i, 0 <= i < 8 ->
    Z.testbit (read_bits gte_example_vm 93 8) i
    = buf_bit (code_memory gte_example_vm) (8 * pc gte_example_vm + 93 + i).
Proof.
  apply read_bits_extracts_field; [| concrete | concrete | concrete].
  cbn. repeat constructor; lia.
Defined.

(** C5 at a [GTE] with every operand at its maximum *)
Lemma to_bytes_fixed_length_witness :
  exists bs, to_bytes (GTE 255 67108863 67108863 67108863 255) = inr bs /\
    length bs = 13%nat.
Proof.
  destruct to_bytes_fixed_length as (_ & _ & _ & H).
  apply (H 255 67108863 67108863 67108863 255). vm_compute. reflexivity.
Defined.

(** C6 at the result address of [GTE] *)
Lemma constructors_enforce_ranges_witness :
  GTEInstruction 0 0 0 (2 ^ 26) 0
    = inl (ValueError (RangeMsg "result address" (2 ^ 26) 0 (2 ^ 26 - 1))) /\
  GTEInstruction 0 0 0 (2 ^ 26 - 1) 0 = inr (GTE 0 0 0 (2 ^ 26 - 1) 0).
Proof.
  destruct constructors_enforce_ranges
    as (_ & _ & _ & _ & _ & _ & _ & _ & _ & _ & _ & _ & _ & _ & H & _).
  apply H; concrete.
Defined.

(** C7: the first step of [LOAD_CONST 7 2] on a fresh machine, and [run]
    going on after it *)
Lemma pc_advances_and_run_halts_witness :
  pc load_example_vm < code_len load_example_vm /\
  run load_example_vm = run load_example_after.
Proof.
  destruct pc_advances_and_run_halts as (_ & _ & _ & _ & H & _).
  apply (H _ (TLoadConst 2 7)). vm_compute. reflexivity.
Defined.

(** C8: [LOAD_CONST 7 2] then a zero opcode at [pc] 6 *)
Lemma unknown_opcode_stops_without_rollback_witness :
  run unknown_example_vm
  = (inl (ValueError (UnknownOpcodeMsg 0 6)), mkVM [0; 0; 7; 0] unknown_example_code 6).
Proof.
  destruct unknown_opcode_stops_without_rollback as (_ & H).
  apply (H unknown_example_vm (mkVM [0; 0; 7; 0] unknown_example_code 6)).
  - apply (steps_step _ (TLoadConst 2 7) (mkVM [0; 0; 7; 0] unknown_example_code 6));
      [vm_compute; reflexivity | apply steps_refl].
  - concrete.
  - concrete.
  - concrete.
  - concrete.
  - concrete.
Defined.

(** C9: the step of [LOAD_CONST 7 2] on a fresh machine of 4 cells *)
Lemma step_writes_one_cell_witness :
  length (data_memory load_example_after) = 4%nat /\
  exists a v, 0 <= a < 4 /\
    data_memory load_example_after = <[Z.to_nat a := v]> (data_memory load_example_vm).
Proof.
  destruct (step_writes_one_cell load_example_vm (TLoadConst 2 7) load_example_after)
    as (_ & Hl & a & v & _ & Ha & Hm & _);
    [apply reach_load, reach_init | vm_compute; reflexivity |].
  split; [rewrite Hl; reflexivity|].
  exists a, v. split; [exact Ha | exact Hm].
Defined.

(** C10: the final state of [main] on [LOAD_CONST 7 2] *)
Lemma cells_stay_in_range_witness :
  data_memory load_example_after !! 2%nat = Some 7 /\ 0 <= 7 <= 2047.
Proof.
  destruct cells_stay_in_range as (_ & _ & H).
  split; [vm_compute; reflexivity|].
  apply (H 4 load_example_code (inr tt) load_example_after
           ltac:(vm_compute; reflexivity) 2%nat 7).
  vm_compute. reflexivity.
Defined.

Lemma load_const_step_semantics_witness :
  step load_example_vm =
    (inr (Some (TLoadConst 2 7)),
     mkVM (<[Z.to_nat 2 := 7]> (data_memory load_example_vm))
          (code_memory load_example_vm) (pc load_example_vm + 6)).
Proof.
  apply (proj1 (load_const_step_semantics load_example_vm 7 2
                  ltac:(concrete) ltac:(concrete) ltac:(concrete) ltac:(concrete))).
  concrete.
Defined.

Lemma read_mem_step_semantics_witness :
  step read_mem_example_vm =
    (inr (Some (TReadMem 1 0 1 3 4)),
     mkVM (<[Z.to_nat 1 := 4]> (data_memory read_mem_example_vm))
          (code_memory read_mem_example_vm) (pc read_mem_example_vm + 9)).
Proof. apply (read_mem_step_semantics read_mem_example_vm 1 0 1 3 4); concrete. Defined.

Lemma write_mem_step_semantics_witness :
  step write_mem_example_vm =
    (inr (Some (TWriteMem 0 2 9)),
     mkVM (<[Z.to_nat 0 := 9]> (data_memory write_mem_example_vm))
          (code_memory write_mem_example_vm) (pc write_mem_example_vm + 8)).
Proof. apply (write_mem_step_semantics write_mem_example_vm 2 0 9); concrete. Defined.

Lemma step_error_cases_witness :
  step index_error_example_vm = (inl IndexError, index_error_example_vm) /\
  (read_bits index_error_example_vm 0 7 = 111 \/ read_bits index_error_example_vm 0 7 = 40 \/
   read_bits index_error_example_vm 0 7 = 101 \/ read_bits index_error_example_vm 0 7 = 68).
Proof.
  assert (H : step index_error_example_vm = (inl IndexError, index_error_example_vm))
    by (vm_compute; reflexivity).
  split; [exact H|].
  destruct (step_error_cases _ _ _ H) as (_ & _ & [[_ Hop]|(Habs & _)]);
    [exact Hop | discriminate].
Defined.

Lemma run_is_steps_then_stop_witness :
  steps example_run_vm example_stop_vm /\
  step example_stop_vm = (inl IndexError, example_stop_vm).
Proof.
  assert (H : run example_run_vm = (inl IndexError, example_stop_vm)) by (vm_compute; reflexivity).
  destruct (run_is_steps_then_stop _ _ _ H) as [Hs [[Habs _]|(e & He & _ & Hst)]];
    [discriminate|].
  inversion He; subst. split; assumption.
Defined.

Lemma run_keeps_memory_size_witness :
  length (data_memory example_stop_vm) = 4%nat /\ code_memory example_stop_vm = example_binary.
Proof.
  assert (H : run example_run_vm = (inl IndexError, example_stop_vm)) by (vm_compute; reflexivity).
  destruct (run_keeps_memory_size _ _ _ H) as [Hl Hc].
  split; [rewrite Hl; reflexivity | exact Hc].
Defined.

Lemma to_binary_decodes_witness :
  Forall operands_fit example_program /\
  exists bin, to_binary example_program = inr bin /\
    length bin = sum_list (byte_count <$> example_program) /\
    forall k i mem, example_program !! k = Some i ->
      read_fields (mkVM mem bin (instr_offset example_program k)) i = field_values i.
Proof.
  assert (H : Forall operands_fit example_program)
    by (repeat constructor; cbn; lia).
  split; [exact H | exact (to_binary_decodes _ H)].
Defined.

Lemma run_assembled_program_witness :
  exists k i, example_program !! k = Some i /\
    pc example_stop_vm = instr_offset example_program k /\
    read_fields example_stop_vm i = field_values i.
Proof.
  assert (Hfit : Forall operands_fit example_program) by (repeat constructor; cbn; lia).
  assert (Hb : to_binary example_program = inr example_binary) by (vm_compute; reflexivity).
  assert (H : run (load_program (VirtualMachine 4) example_binary) = (inl IndexError, example_stop_vm))
    by (vm_compute; reflexivity).
  destruct (run_assembled_program _ _ _ _ _ Hfit Hb H) as [_ [[Habs _]|[_ Hk]]];
    [discriminate | exact Hk].
Defined.


Lemma parse_line_early_errors_witness :
  parse_line ("gte" ++ words_text ["1"%string; "x"%string])%string =
    inl (LineError "gte 1 x" (ArgCountMsg "GTE" 5 2)).
Proof.
  destruct (parse_line_early_errors "gte" ["1"%string; "x"%string]) as [H _];
    [vm_compute; reflexivity | repeat constructor |].
  exact (H (GTE 0 0 0 0 0) eq_refl ltac:(cbn; discriminate)).
Defined.

Lemma parse_line_blank_witness : parse_line "   # only a comment" = inr None.
Proof. apply parse_line_blank. vm_compute. reflexivity. Defined.

Lemma assemble_result_witness :
  exists pre opts line post,
    py_split_on "010" failing_source = pre ++ line :: post /\
    Forall2 (fun l o => parse_line l = inr o) pre opts /\
    omap (fun o => o) opts = [LoadConst 7 2; ReadMem 0 1 2] /\
    parse_line line = inl (LineError "bad" (UnknownMnemonicMsg "BAD")).
Proof.
  assert (H : assemble failing_source =
                (inl (LineError "bad" (UnknownMnemonicMsg "BAD")), [LoadConst 7 2; ReadMem 0 1 2]))
    by (vm_compute; reflexivity).
  destruct (assemble_result _ _ _ H)
    as (pre & opts & Hf & Hst & [[_ Habs]|(line & post & e & Hs & Hl & He)]);
    [discriminate|].
  inversion He; subst. exists pre, opts, line, post. auto.
Defined.

Lemma assemble_program_text_witness :
  assemble (program_text example_program) = (inr example_program, example_program).
Proof. apply assemble_program_text. repeat constructor; cbn; lia. Defined.

Lemma assemble_output_encodes_witness :
  exists bin, to_binary [LoadConst 7 2; ReadMem 0 1 2] = inr bin /\ length bin = 15%nat.
Proof.
  assert (H : assemble example_source =
                (inr [LoadConst 7 2; ReadMem 0 1 2], [LoadConst 7 2; ReadMem 0 1 2]))
    by (vm_compute; reflexivity).
  destruct (assemble_output_encodes _ _ _ H) as (_ & _ & bin & Hb & Hl).
  exists bin. split; [exact Hb | rewrite Hl; reflexivity].
Defined.

Lemma dump_memory_cells_listing_witness :
  dump_memory_cells load_example_after (-2) 5 =
    inr [(-2, 7); (-1, 0); (0, 0); (1, 0); (2, 7); (3, 0)].
Proof. rewrite dump_memory_cells_listing by concrete. vm_compute. reflexivity. Defined.

Lemma dump_memory_cells_index_error_witness :
  dump_memory_cells load_example_after (-9) 0 = inl IndexError.
Proof. apply dump_memory_cells_index_error; concrete. Defined.
